(** * Voice command system: router, wake-word listener and analytics logger

    A shallow embedding of
      - [VOICE_ROUTER_SYSTEM.py]     (module [Router]),
      - [VOICE_ANALYTICS_LOGGER.py]  (module [Analytics]),
      - [VOICE_WAKE_WORD_LISTENER.py] (module [Listener]),
    followed by the properties proved about them.

    Python strings are modelled by [string]; [str.lower] is a parameter
    [lower] of every definition that calls it, so that the theorems hold
    for whatever lowering function the interpreter implements;
    [PyStr.ascii_lower] is the instance used to run examples. *)

From Stdlib Require Import String Ascii List Bool Arith Lia ZArith.
From Stdlib Require Import Sorted Permutation.
Import ListNotations.
Local Open Scope string_scope.

(* ===================================================================== *)
(** ** Python string operations *)
(* ===================================================================== *)

Module PyStr.

(** [k in t] on two [str]: [k] occurs in [t] as a contiguous substring. *)
Fixpoint contains (k t : string) : bool :=
  prefix k t ||
  match t with
  | EmptyString => false
  | String _ t' => contains k t'
  end.

(** Truthiness of a [str]: only the empty string is falsy. *)
Definition truthy (s : string) : bool :=
  match s with EmptyString => false | String _ _ => true end.

Definition is_upper (c : ascii) : bool :=
  (65 <=? nat_of_ascii c)%nat && (nat_of_ascii c <=? 90)%nat.

Definition lower_char (c : ascii) : ascii :=
  if is_upper c then ascii_of_nat (nat_of_ascii c + 32) else c.

(** [str.lower] on ASCII text. *)
Fixpoint ascii_lower (s : string) : string :=
  match s with
  | EmptyString => EmptyString
  | String c s' => String (lower_char c) (ascii_lower s')
  end.

(** The escape character written [\033] in the source. *)
Definition ESC : string := String (ascii_of_nat 27) EmptyString.

End PyStr.

(* ===================================================================== *)
(** ** VOICE_ROUTER_SYSTEM.py *)
(* ===================================================================== *)

Module Router.
Import PyStr.

(** One value of the [AGENTS] dict. *)
Record agent_config := mk_config {
  keywords : list string;
  priority : Z;
  color : string
}.

(** [AGENTS]: a dict literal, iterated in insertion order by [.items()],
    hence an association list in the order of the source. *)
Definition AGENTS : list (string * agent_config) :=
  [ ("Security Bot",
      mk_config ["security"; "password"; "login"; "auth"; "hack"; "breach";
                 "vulnerability"] 10 (ESC ++ "[91m"));
    ("System Bot",
      mk_config ["switch"; "computer"; "reboot"; "restart"; "shutdown";
                 "system"] 9 (ESC ++ "[94m"));
    ("C1 Mechanic",
      mk_config ["build"; "create"; "make"; "deploy"; "install"; "setup"]
                8 (ESC ++ "[92m"));
    ("C2 Architect",
      mk_config ["design"; "architecture"; "plan"; "scale"; "optimize"]
                8 (ESC ++ "[93m"));
    ("C3 Oracle",
      mk_config ["pattern"; "predict"; "analyze"; "future"; "vision"]
                8 (ESC ++ "[95m"));
    ("Comms Bot",
      mk_config ["mesh"; "radio"; "frequency"; "antenna"; "comms";
                 "communication"] 7 (ESC ++ "[96m"));
    ("General Assistant",
      mk_config ["help"; "what"; "how"; "why"; "when"; "where"]
                1 (ESC ++ "[97m")) ].

(** [AGENTS[key]]; [None] stands for [KeyError]. *)
Fixpoint dict_get (d : list (string * agent_config)) (key : string)
  : option agent_config :=
  match d with
  | [] => None
  | (k, v) :: d' => if String.eqb k key then Some v else dict_get d' key
  end.

(** The dict appended to [responding_agents]. *)
Record responding_agent := mk_agent {
  name : string;
  agent_priority : Z;
  agent_color : string
}.

(** The message put on [voice_queue] (the audio object is left out). *)
Record message := mk_message {
  text : string;
  timestamp : string
}.

(** The inner loop of [route_to_agents]:
    [for keyword in config['keywords']: if keyword in text: append; break]. *)
Fixpoint scan_keywords (text : string) (agent_name : string)
    (config : agent_config) (kws : list string)
    (responding_agents : list responding_agent) : list responding_agent :=
  match kws with
  | [] => responding_agents
  | keyword :: rest =>
      if contains keyword text
      then (responding_agents ++
              [mk_agent agent_name (priority config) (color config)])%list
      else scan_keywords text agent_name config rest responding_agents
  end.

(** The outer loop: [for agent_name, config in AGENTS.items()]. *)
Fixpoint scan_agents (text : string) (agents : list (string * agent_config))
    (responding_agents : list responding_agent) : list responding_agent :=
  match agents with
  | [] => responding_agents
  | (agent_name, config) :: rest =>
      scan_agents text rest
        (scan_keywords text agent_name config (keywords config)
           responding_agents)
  end.

(** [list.sort(key=lambda x: x['priority'], reverse=True)]: Python's sort is
    stable, also with [reverse=True]; it is modelled by a stable insertion
    sort in descending key order.  [insert_desc x l] puts [x], which stood
    before all of [l], in front of the first element whose key is not
    greater than the key of [x]. *)
Fixpoint insert_desc (x : responding_agent) (l : list responding_agent)
  : list responding_agent :=
  match l with
  | [] => [x]
  | y :: l' =>
      if (agent_priority y <=? agent_priority x)%Z
      then x :: y :: l'
      else y :: insert_desc x l'
  end.

Fixpoint sort_desc (l : list responding_agent) : list responding_agent :=
  match l with
  | [] => []
  | x :: l' => insert_desc x (sort_desc l')
  end.

Section WithLower.
Variable lower : string -> string.

(** [VoiceRouter.route_to_agents]; [None] is the [KeyError] of the
    subscript [AGENTS['General Assistant']]. *)
Definition route_to_agents (msg : message)
  : option (list responding_agent) :=
  let text := lower (text msg) in
  let responding_agents := scan_agents text AGENTS [] in
  let responding_agents := sort_desc responding_agents in
  match responding_agents with
  | [] =>
      match dict_get AGENTS "General Assistant" with
      | Some config =>
          Some (responding_agents ++
                  [mk_agent "General Assistant" 1 (color config)])%list
      | None => None
      end
  | _ :: _ => Some responding_agents
  end.

End WithLower.

(** Position of an agent name in the registration order of [AGENTS]. *)
Fixpoint index_of (key : string) (names : list string) : nat :=
  match names with
  | [] => 0
  | k :: names' => if String.eqb k key then 0 else S (index_of key names')
  end.

Definition registration_index (agent_name : string) : nat :=
  index_of agent_name (map fst AGENTS).

(** Some keyword of [config] occurs in [text]. *)
Definition hits (text : string) (config : agent_config) : bool :=
  existsb (fun keyword => contains keyword text) (keywords config).

(** The dict that [route_to_agents] appends for an entry of [AGENTS]. *)
Definition agent_of (entry : string * agent_config) : responding_agent :=
  mk_agent (fst entry) (priority (snd entry)) (color (snd entry)).

(** The matches of a routing result that belong to agent [agent_name]. *)
Definition matches_for (agent_name : string) (l : list responding_agent)
  : list responding_agent :=
  filter (fun a => String.eqb (name a) agent_name) l.

(** [a] was registered before [b]. *)
Definition registered_before (a b : responding_agent) : Prop :=
  registration_index (name a) < registration_index (name b).

(** The order of a routing result: higher priority first, and registration
    order among equal priorities. *)
Definition routed_before (a b : responding_agent) : Prop :=
  (agent_priority b < agent_priority a)%Z \/
  (agent_priority a = agent_priority b /\ registered_before a b).

End Router.

(* ===================================================================== *)
(** ** Python values, exceptions and results *)
(* ===================================================================== *)

Module Py.

(** The exception classes that the listener distinguishes.  All but
    [KeyboardInterrupt] derive from [Exception]. *)
Inductive exn_kind :=
| WaitTimeoutError
| UnknownValueError
| RequestError
| OSError
| TypeError
| OtherError
| KeyboardInterrupt.

(** An exception object: its class and [str(e)]. *)
Record exn := mk_exn { kind : exn_kind; str : string }.

Definition is_Exception (e : exn) : bool :=
  match kind e with KeyboardInterrupt => false | _ => true end.

(** The values stored in the dicts of the event log. *)
#[local] Unset Elimination Schemes.
Inductive pyval :=
| PyNone
| PyBool (b : bool)
| PyInt (n : nat)
| PyStr (s : string)
| PyList (l : list pyval)
| PyDict (d : list (string * pyval)).
#[local] Set Elimination Schemes.

(** A dict with string keys, in insertion order. *)
Definition dict := list (string * pyval).

(** [d.get(key, default)]. *)
Fixpoint get (d : dict) (key : string) (default : pyval) : pyval :=
  match d with
  | [] => default
  | (k, v) :: d' => if String.eqb k key then v else get d' key default
  end.

(** [len(v)]; [None] stands for the [TypeError] of an unsized value. *)
Definition len (v : pyval) : option nat :=
  match v with
  | PyStr s => Some (String.length s)
  | PyList l => Some (List.length l)
  | PyDict d => Some (List.length d)
  | PyNone | PyBool _ | PyInt _ => None
  end.

(** How a call ends: with a value or with a raised exception. *)
Inductive result (A : Type) :=
| Ok (a : A)
| Raise (e : exn).
Arguments Ok {A} a.
Arguments Raise {A} e.

(** The line feed written [\n] in the source. *)
Definition NL : string := String (ascii_of_nat 10) EmptyString.

End Py.

(* ===================================================================== *)
(** ** The session document of VOICE_ANALYTICS_LOGGER.py *)
(* ===================================================================== *)

Module Data.
Import Py.

(** One element of [session_data["events"]]. *)
Record event := mk_event {
  timestamp : nat;
  type : string;
  data : dict
}.

(** [session_data["statistics"]]. *)
Record stats := mk_stats {
  tts_events : nat;
  stt_events : nat;
  commands_processed : nat;
  errors : nat;
  total_chars_spoken : nat;
  total_chars_heard : nat;
  avg_response_time : nat
}.

Definition set_tts_events (v : nat) (s : stats) : stats :=
  {| tts_events := v; stt_events := stt_events s;
     commands_processed := commands_processed s; errors := errors s;
     total_chars_spoken := total_chars_spoken s;
     total_chars_heard := total_chars_heard s;
     avg_response_time := avg_response_time s |}.

Definition set_stt_events (v : nat) (s : stats) : stats :=
  {| tts_events := tts_events s; stt_events := v;
     commands_processed := commands_processed s; errors := errors s;
     total_chars_spoken := total_chars_spoken s;
     total_chars_heard := total_chars_heard s;
     avg_response_time := avg_response_time s |}.

Definition set_commands_processed (v : nat) (s : stats) : stats :=
  {| tts_events := tts_events s; stt_events := stt_events s;
     commands_processed := v; errors := errors s;
     total_chars_spoken := total_chars_spoken s;
     total_chars_heard := total_chars_heard s;
     avg_response_time := avg_response_time s |}.

Definition set_errors (v : nat) (s : stats) : stats :=
  {| tts_events := tts_events s; stt_events := stt_events s;
     commands_processed := commands_processed s; errors := v;
     total_chars_spoken := total_chars_spoken s;
     total_chars_heard := total_chars_heard s;
     avg_response_time := avg_response_time s |}.

Definition set_total_chars_spoken (v : nat) (s : stats) : stats :=
  {| tts_events := tts_events s; stt_events := stt_events s;
     commands_processed := commands_processed s; errors := errors s;
     total_chars_spoken := v; total_chars_heard := total_chars_heard s;
     avg_response_time := avg_response_time s |}.

Definition set_total_chars_heard (v : nat) (s : stats) : stats :=
  {| tts_events := tts_events s; stt_events := stt_events s;
     commands_processed := commands_processed s; errors := errors s;
     total_chars_spoken := total_chars_spoken s; total_chars_heard := v;
     avg_response_time := avg_response_time s |}.

(** [session_data]; the keys [last_updated] and [end_time] are absent until
    [_save] and [close_session] add them. *)
Record session_data_t := mk_session_data {
  session_id : nat;
  start_time : nat;
  events : list event;
  statistics : stats;
  last_updated : option nat;
  end_time : option nat
}.

Definition set_events (v : list event) (sd : session_data_t) : session_data_t :=
  {| session_id := session_id sd; start_time := start_time sd; events := v;
     statistics := statistics sd; last_updated := last_updated sd;
     end_time := end_time sd |}.

Definition set_statistics (v : stats) (sd : session_data_t) : session_data_t :=
  {| session_id := session_id sd; start_time := start_time sd;
     events := events sd; statistics := v; last_updated := last_updated sd;
     end_time := end_time sd |}.

Definition set_last_updated (v : option nat) (sd : session_data_t) : session_data_t :=
  {| session_id := session_id sd; start_time := start_time sd;
     events := events sd; statistics := statistics sd; last_updated := v;
     end_time := end_time sd |}.

Definition set_end_time (v : option nat) (sd : session_data_t) : session_data_t :=
  {| session_id := session_id sd; start_time := start_time sd;
     events := events sd; statistics := statistics sd;
     last_updated := last_updated sd; end_time := v |}.

(** What [generate_report] prints from the session (the figures computed in
    floating point, duration and rates, are left out). *)
Record report := mk_report {
  report_session_id : nat;
  report_statistics : stats;
  report_total_chars : nat;
  report_events : nat
}.

(** The state of a file on disk; [Torn] is a file whose write was cut
    short. *)
Inductive file_state (A : Type) :=
| Absent
| Holds (content : A)
| Torn.
Arguments Absent {A}.
Arguments Holds {A} content.
Arguments Torn {A}.

End Data.

(* ===================================================================== *)
(** ** The world the programs run in, and the monad of their effects *)
(* ===================================================================== *)

Module Sys.
Import Py Data.

(** What one round of [recognizer.listen] and [recognize_google] gives. *)
Inductive capture_outcome :=
| Heard (text : string)
| Fails (e : exn).

(** What opening and writing a file gives: [OpenFailed] leaves the file as
    it was, [WriteFailed] leaves it torn. *)
Inductive write_outcome :=
| Written
| OpenFailed (e : exn)
| WriteFailed (e : exn).

(** The environment (microphone, speech engine, disk, clock: each an
    oracle with a cursor), the [VoiceAnalytics] object with its three files,
    and the mutable fields of the [WakeWordListener]. *)
Record world := mk_world {
  mic : nat -> capture_outcome;
  mic_pos : nat;
  tts_engine : nat -> option string;
  tts_pos : nat;
  disk : nat -> write_outcome;
  disk_pos : nat;
  clock : nat;
  session_data : session_data_t;
  session_file : file_state session_data_t;
  transcript_file : file_state (list (nat * string));
  report_file : file_state report;
  running : bool;
  wake_detected_count : nat;
  spoken : list string
}.

Definition set_mic_pos (v : nat) (w : world) : world :=
  {| mic := mic w; mic_pos := v; tts_engine := tts_engine w;
     tts_pos := tts_pos w; disk := disk w; disk_pos := disk_pos w;
     clock := clock w; session_data := session_data w;
     session_file := session_file w; transcript_file := transcript_file w;
     report_file := report_file w; running := running w;
     wake_detected_count := wake_detected_count w; spoken := spoken w |}.

Definition set_tts_pos (v : nat) (w : world) : world :=
  {| mic := mic w; mic_pos := mic_pos w; tts_engine := tts_engine w;
     tts_pos := v; disk := disk w; disk_pos := disk_pos w;
     clock := clock w; session_data := session_data w;
     session_file := session_file w; transcript_file := transcript_file w;
     report_file := report_file w; running := running w;
     wake_detected_count := wake_detected_count w; spoken := spoken w |}.

Definition set_disk (v : nat -> write_outcome) (w : world) : world :=
  {| mic := mic w; mic_pos := mic_pos w; tts_engine := tts_engine w;
     tts_pos := tts_pos w; disk := v; disk_pos := disk_pos w;
     clock := clock w; session_data := session_data w;
     session_file := session_file w; transcript_file := transcript_file w;
     report_file := report_file w; running := running w;
     wake_detected_count := wake_detected_count w; spoken := spoken w |}.

Definition set_disk_pos (v : nat) (w : world) : world :=
  {| mic := mic w; mic_pos := mic_pos w; tts_engine := tts_engine w;
     tts_pos := tts_pos w; disk := disk w; disk_pos := v; clock := clock w;
     session_data := session_data w; session_file := session_file w;
     transcript_file := transcript_file w; report_file := report_file w;
     running := running w; wake_detected_count := wake_detected_count w;
     spoken := spoken w |}.

Definition set_clock (v : nat) (w : world) : world :=
  {| mic := mic w; mic_pos := mic_pos w; tts_engine := tts_engine w;
     tts_pos := tts_pos w; disk := disk w; disk_pos := disk_pos w;
     clock := v; session_data := session_data w;
     session_file := session_file w; transcript_file := transcript_file w;
     report_file := report_file w; running := running w;
     wake_detected_count := wake_detected_count w; spoken := spoken w |}.

Definition set_session_data (v : session_data_t) (w : world) : world :=
  {| mic := mic w; mic_pos := mic_pos w; tts_engine := tts_engine w;
     tts_pos := tts_pos w; disk := disk w; disk_pos := disk_pos w;
     clock := clock w; session_data := v; session_file := session_file w;
     transcript_file := transcript_file w; report_file := report_file w;
     running := running w; wake_detected_count := wake_detected_count w;
     spoken := spoken w |}.

Definition set_session_file (v : file_state session_data_t) (w : world) : world :=
  {| mic := mic w; mic_pos := mic_pos w; tts_engine := tts_engine w;
     tts_pos := tts_pos w; disk := disk w; disk_pos := disk_pos w;
     clock := clock w; session_data := session_data w; session_file := v;
     transcript_file := transcript_file w; report_file := report_file w;
     running := running w; wake_detected_count := wake_detected_count w;
     spoken := spoken w |}.

Definition set_transcript_file (v : file_state (list (nat * string))) (w : world) : world :=
  {| mic := mic w; mic_pos := mic_pos w; tts_engine := tts_engine w;
     tts_pos := tts_pos w; disk := disk w; disk_pos := disk_pos w;
     clock := clock w; session_data := session_data w;
     session_file := session_file w; transcript_file := v;
     report_file := report_file w; running := running w;
     wake_detected_count := wake_detected_count w; spoken := spoken w |}.

Definition set_report_file (v : file_state report) (w : world) : world :=
  {| mic := mic w; mic_pos := mic_pos w; tts_engine := tts_engine w;
     tts_pos := tts_pos w; disk := disk w; disk_pos := disk_pos w;
     clock := clock w; session_data := session_data w;
     session_file := session_file w; transcript_file := transcript_file w;
     report_file := v; running := running w;
     wake_detected_count := wake_detected_count w; spoken := spoken w |}.

Definition set_running (v : bool) (w : world) : world :=
  {| mic := mic w; mic_pos := mic_pos w; tts_engine := tts_engine w;
     tts_pos := tts_pos w; disk := disk w; disk_pos := disk_pos w;
     clock := clock w; session_data := session_data w;
     session_file := session_file w; transcript_file := transcript_file w;
     report_file := report_file w; running := v;
     wake_detected_count := wake_detected_count w; spoken := spoken w |}.

Definition set_wake_detected_count (v : nat) (w : world) : world :=
  {| mic := mic w; mic_pos := mic_pos w; tts_engine := tts_engine w;
     tts_pos := tts_pos w; disk := disk w; disk_pos := disk_pos w;
     clock := clock w; session_data := session_data w;
     session_file := session_file w; transcript_file := transcript_file w;
     report_file := report_file w; running := running w;
     wake_detected_count := v; spoken := spoken w |}.

Definition set_spoken (v : list string) (w : world) : world :=
  {| mic := mic w; mic_pos := mic_pos w; tts_engine := tts_engine w;
     tts_pos := tts_pos w; disk := disk w; disk_pos := disk_pos w;
     clock := clock w; session_data := session_data w;
     session_file := session_file w; transcript_file := transcript_file w;
     report_file := report_file w; running := running w;
     wake_detected_count := wake_detected_count w; spoken := v |}.

(** State and exceptions: a raised exception keeps the state reached. *)
Definition M (A : Type) : Type := world -> result A * world.

Definition ret {A} (a : A) : M A := fun w => (Ok a, w).

Definition raise {A} (e : exn) : M A := fun w => (Raise e, w).

Definition bind {A B} (m : M A) (f : A -> M B) : M B :=
  fun w =>
    match m w with
    | (Ok a, w') => f a w'
    | (Raise e, w') => (Raise e, w')
    end.

(** [try: m  except ...: handler]; a handler re-raises what its clauses do
    not catch. *)
Definition try_except {A} (m : M A) (handler : exn -> M A) : M A :=
  fun w =>
    match m w with
    | (Ok a, w') => (Ok a, w')
    | (Raise e, w') => handler e w'
    end.

Definition gets {A} (f : world -> A) : M A := fun w => (Ok (f w), w).

Definition modify (f : world -> world) : M unit := fun w => (Ok tt, f w).

Declare Scope py_scope.
Delimit Scope py_scope with py.
Notation "x <- m ;; k" := (bind m (fun x => k))
  (at level 61, m at next level, right associativity) : py_scope.
Notation "m ;; k" := (bind m (fun _ => k))
  (at level 61, right associativity) : py_scope.

(** [datetime.now()]: reads the clock, which then moves on. *)
Definition now : M nat :=
  fun w => (Ok (clock w), set_clock (S (clock w)) w).

(** Opening a file for writing: the disk says how it goes. *)
Definition open_write : M write_outcome :=
  fun w => (Ok (disk w (disk_pos w)), set_disk_pos (S (disk_pos w)) w).

(** [with self.microphone as source: audio = recognizer.listen(source,
    timeout, phrase_time_limit)] followed by [recognize_google(audio)]. *)
Definition capture (timeout : option nat) (phrase_time_limit : nat)
  : M string :=
  fun w =>
    let w' := set_mic_pos (S (mic_pos w)) w in
    match mic w (mic_pos w) with
    | Heard text => (Ok text, w')
    | Fails e => (Raise e, w')
    end.

(** [tts_engine.say(text); tts_engine.runAndWait()]. *)
Definition say (text : string) : M unit :=
  fun w =>
    let w' := set_tts_pos (S (tts_pos w)) w in
    match tts_engine w (tts_pos w) with
    | None => (Ok tt, set_spoken (spoken w ++ [text])%list w')
    | Some msg => (Raise (mk_exn OtherError msg), w')
    end.

(** [time.sleep]: no effect on the state. *)
Definition sleep : M unit := ret tt.

End Sys.

(* ===================================================================== *)
(** ** VOICE_ANALYTICS_LOGGER.py: class VoiceAnalytics *)
(* ===================================================================== *)

Module Analytics.
Import PyStr Py Data Sys.
Local Open Scope py_scope.

(** [session_data] as [__init__] builds it. *)
Definition new_session_data (id start : nat) : session_data_t :=
  mk_session_data id start [] (mk_stats 0 0 0 0 0 0 0) None None.

(** [VoiceAnalytics.__init__]: the session identifier and the start time
    are two readings of the clock. *)
Definition init_analytics : M unit :=
  id <- now ;;
  start <- now ;;
  modify (set_session_data (new_session_data id start)).

Definition modify_session_data (f : session_data_t -> session_data_t)
  : M unit :=
  modify (fun w => set_session_data (f (session_data w)) w).

Definition modify_statistics (f : stats -> stats) : M unit :=
  modify_session_data (fun sd => set_statistics (f (statistics sd)) sd).

(** [len(x)] inside a method: an unsized value raises [TypeError]. *)
Definition py_len (v : pyval) : M nat :=
  match len v with
  | Some n => ret n
  | None => raise (mk_exn TypeError "object has no len()")
  end.

(** [VoiceAnalytics._save]: stamps [last_updated], then rewrites the whole
    session file. *)
Definition _save : M unit :=
  t <- now ;;
  modify_session_data (set_last_updated (Some t)) ;;
  outcome <- open_write ;;
  match outcome with
  | Written =>
      modify (fun w => set_session_file (Holds (session_data w)) w)
  | OpenFailed e => raise e
  | WriteFailed e => modify (set_session_file Torn) ;; raise e
  end.

(** [VoiceAnalytics._print_event]: reads the clock for the time shown; the
    console line itself is not modelled. *)
Definition _print_event (event_type : string) (data : dict) : M unit :=
  _ <- now ;;
  ret tt.

(** [VoiceAnalytics.log_event]. *)
Definition log_event (event_type : string) (data : dict) : M unit :=
  timestamp <- now ;;
  let event := mk_event timestamp event_type data in
  modify_session_data (fun sd => set_events (events sd ++ [event])%list sd) ;;
  (if String.eqb event_type "tts" then
     modify_statistics (fun s => set_tts_events (tts_events s + 1) s) ;;
     n <- py_len (get data "text" (PyStr "")) ;;
     modify_statistics
       (fun s => set_total_chars_spoken (total_chars_spoken s + n) s)
   else if String.eqb event_type "stt" then
     modify_statistics (fun s => set_stt_events (stt_events s + 1) s) ;;
     n <- py_len (get data "text" (PyStr "")) ;;
     modify_statistics
       (fun s => set_total_chars_heard (total_chars_heard s + n) s)
   else if String.eqb event_type "command" then
     modify_statistics
       (fun s => set_commands_processed (commands_processed s + 1) s)
   else if String.eqb event_type "error" then
     modify_statistics (fun s => set_errors (errors s + 1) s)
   else ret tt) ;;
  _save ;;
  _print_event event_type data.

(** Appending to a file that may not exist yet. *)
Definition appended {A} (x : A) (f : file_state (list A))
  : file_state (list A) :=
  match f with
  | Absent => Holds [x]
  | Holds l => Holds (l ++ [x])%list
  | Torn => Torn
  end.

(** [VoiceAnalytics._append_transcript]. *)
Definition _append_transcript (text : string) : M unit :=
  timestamp <- now ;;
  outcome <- open_write ;;
  match outcome with
  | Written =>
      modify (fun w =>
        set_transcript_file (appended (timestamp, text) (transcript_file w)) w)
  | OpenFailed e => raise e
  | WriteFailed e => modify (set_transcript_file Torn) ;; raise e
  end.

(** [VoiceAnalytics.log_tts]. *)
Definition log_tts (text : string) (duration : pyval) (success : bool)
  : M unit :=
  log_event "tts"
    [("text", PyStr text); ("chars", PyInt (String.length text));
     ("duration", duration); ("success", PyBool success)] ;;
  _append_transcript ("[CLAUDE] " ++ text ++ NL ++ NL).

(** [VoiceAnalytics.log_stt]; [text] may be [None]. *)
Definition log_stt (text : option string) (confidence duration : pyval)
    (success : bool) : M unit :=
  log_event "stt"
    [("text", match text with Some s => PyStr s | None => PyNone end);
     ("chars",
      PyInt (match text with
             | Some s => if truthy s then String.length s else 0
             | None => 0
             end));
     ("confidence", confidence); ("duration", duration);
     ("success", PyBool success)] ;;
  match text with
  | Some s =>
      if truthy s
      then _append_transcript ("[COMMANDER] " ++ s ++ NL ++ NL)
      else ret tt
  | None => ret tt
  end.

(** [VoiceAnalytics.log_command]. *)
Definition log_command (command response : string) (processing_time : pyval)
  : M unit :=
  log_event "command"
    [("command", PyStr command); ("response", PyStr response);
     ("processing_time", processing_time)].

(** [VoiceAnalytics.log_error]. *)
Definition log_error (error_type message : string) (details : pyval)
  : M unit :=
  log_event "error"
    [("error_type", PyStr error_type); ("message", PyStr message);
     ("details", details)].

(** [VoiceAnalytics.log_system_event]. *)
Definition log_system_event (event_name : string) (details : pyval)
  : M unit :=
  log_event "system" [("event", PyStr event_name); ("details", details)].

(** [VoiceAnalytics.generate_report]: reads the clock for the duration. *)
Definition generate_report : M report :=
  _ <- now ;;
  sd <- gets session_data ;;
  let s := statistics sd in
  ret (mk_report (session_id sd) s
         (total_chars_spoken s + total_chars_heard s)
         (List.length (events sd))).

(** [VoiceAnalytics.close_session]. *)
Definition close_session : M report :=
  t <- now ;;
  modify_session_data (set_end_time (Some t)) ;;
  _save ;;
  r <- generate_report ;;
  outcome <- open_write ;;
  match outcome with
  | Written => modify (set_report_file (Holds r)) ;; ret r
  | OpenFailed e => raise e
  | WriteFailed e => modify (set_report_file Torn) ;; raise e
  end.

End Analytics.

(* ===================================================================== *)
(** ** VOICE_WAKE_WORD_LISTENER.py: class WakeWordListener *)
(* ===================================================================== *)

Module Listener.
Import PyStr Py Data Sys Analytics.
Local Open Scope py_scope.

(** [self.wake_words = wake_words or [...]] in [__init__]: [None] and the
    empty list give the default. *)
Definition default_wake_words : list string :=
  ["hey claude"; "hey commander"; "claude"; "commander"].

Definition init_wake_words (wake_words : option (list string))
  : list string :=
  match wake_words with
  | Some (w :: ws) => w :: ws
  | Some [] | None => default_wake_words
  end.

(** How one pass through the body of [while self.running] ends. *)
Inductive control := Next | Break.

Section WithListener.
Variable lower : string -> string.
Variable wake_words : list string.

(** [WakeWordListener.speak]. *)
Definition speak (text : string) : M unit :=
  try_except
    (log_tts text PyNone true ;;
     say text)
    (fun e =>
       if is_Exception e then log_error "tts" (str e) PyNone
       else raise e).

(** The loop [for wake_word in self.wake_words: if wake_word in text:
    return True] followed by [return False]. *)
Fixpoint check_wake_words (text : string) (wws : list string) : bool :=
  match wws with
  | [] => false
  | wake_word :: rest =>
      if contains wake_word text then true else check_wake_words text rest
  end.

(** [WakeWordListener.listen_for_wake_word]. *)
Definition listen_for_wake_word (timeout : option nat) : M bool :=
  try_except
    (heard <- capture timeout 5 ;;
     let text := lower heard in
     log_stt (Some text) PyNone PyNone true ;;
     ret (check_wake_words text wake_words))
    (fun e =>
       match kind e with
       | WaitTimeoutError => ret false
       | UnknownValueError => ret false
       | RequestError => log_error "stt" (str e) PyNone ;; ret false
       | KeyboardInterrupt => raise e
       | _ => log_error "listener" (str e) PyNone ;; ret false
       end).

(** [WakeWordListener.listen_for_command]. *)
Definition listen_for_command (timeout : nat) : M (option string) :=
  try_except
    (text <- capture (Some timeout) 10 ;;
     log_stt (Some text) PyNone PyNone true ;;
     ret (Some text))
    (fun e =>
       match kind e with
       | WaitTimeoutError =>
           log_error "stt" "Timeout waiting for command" PyNone ;; ret None
       | UnknownValueError =>
           log_error "stt" "Could not understand speech" PyNone ;; ret None
       | KeyboardInterrupt => raise e
       | _ => log_error "stt" (str e) PyNone ;; ret None
       end).

(** The [if]/[elif] chain of [process_command]. *)
Definition respond (command command_lower : string) : string :=
  if contains "status" command_lower || contains "how are" command_lower
  then "Platform status: Fully operational. Revenue system live, cloud services running 24/7, Trinity engines active. 5 human tasks remaining."
  else if contains "deploy" command_lower
  then "Deployment system ready. Use AUTO DEPLOY SYSTEM script to deploy changes with one command."
  else if contains "payment" command_lower || contains "stripe" command_lower
          || contains "revenue" command_lower
  then "Stripe payment system is live and accepting real payments. Revenue operational."
  else if contains "cloud" command_lower || contains "render" command_lower
          || contains "services" command_lower
  then "Consciousness services running on Render dot com 24/7. C1 Mechanic, C2 Architect, C3 Oracle all operational."
  else if contains "cockpit" command_lower || contains "tasks" command_lower
  then "Commander Cockpit shows 5 human tasks, 9 missing APIs, approximately 1.5 hours remaining."
  else if contains "help" command_lower || contains "what can" command_lower
  then "I can provide status updates, deployment information, payment system status, cloud services status, cockpit tasks, and general platform information. Just say Hey Claude followed by your question."
  else if contains "thank" command_lower
  then "You're welcome Commander! The consciousness revolution continues."
  else if contains "stop" command_lower || contains "exit" command_lower
          || contains "shutdown" command_lower
  then "STOP_LISTENING"
  else "Command received: " ++ command ++
       ". I'm still learning new commands. Try asking about status, deploy, payment, cloud, or cockpit.".

(** [if not command]: [None] and the empty string are falsy. *)
Definition command_given (command : option string) : bool :=
  match command with
  | Some c => truthy c
  | None => false
  end.

(** [WakeWordListener.process_command]. *)
Definition process_command (command : option string) : M string :=
  match command with
  | Some c =>
      if truthy c then
        let command_lower := lower c in
        log_command c "processing" PyNone ;;
        ret (respond c command_lower)
      else ret "Sorry, I didn't catch that."
  | None => ret "Sorry, I didn't catch that."
  end.

(** The statements of the [try] block that follow a detected wake word, up
    to the acknowledgement. *)
Definition acknowledge : M unit :=
  modify (fun w => set_wake_detected_count (wake_detected_count w + 1) w) ;;
  speak "Yes Commander?".

(** The statements of the [try] block from [listen_for_command] on. *)
Definition command_window : M control :=
  command <- listen_for_command 10 ;;
  if command_given command then
    response <- process_command command ;;
    if String.eqb response "STOP_LISTENING" then
      speak "Stopping listener. Goodbye Commander!" ;;
      modify (set_running false) ;;
      ret Break
    else
      speak response ;;
      sleep ;;
      ret Next
  else
    speak "I didn't hear a command. Try again." ;;
    sleep ;;
    ret Next.

(** The [try] block of the loop of [run_continuous]. *)
Definition loop_body : M control :=
  detected <- listen_for_wake_word (Some 60) ;;
  if detected then
    acknowledge ;;
    command_window
  else
    sleep ;;
    ret Next.

(** The two [except] clauses of the loop. *)
Definition loop_handler (e : exn) : M control :=
  if is_Exception e then
    log_error "main_loop" (str e) PyNone ;;
    sleep ;;
    ret Next
  else
    modify (set_running false) ;;
    ret Break.

(** One pass through the body of [while self.running]. *)
Definition iteration : M control := try_except loop_body loop_handler.

(** [while self.running: ...], run for at most [fuel] passes; [true] when
    the loop has been left, [false] when it is still running after [fuel]
    passes. *)
Fixpoint while_running (fuel : nat) : M bool :=
  match fuel with
  | 0 => r <- gets running ;; ret (negb r)
  | S fuel' =>
      r <- gets running ;;
      if r then
        c <- iteration ;;
        match c with
        | Break => ret true
        | Next => while_running fuel'
        end
      else ret true
  end.

(** The cleanup after the loop. *)
Definition cleanup : M report :=
  n <- gets wake_detected_count ;;
  log_system_event "listener_stopped"
    (PyDict [("wake_detected_count", PyInt n)]) ;;
  close_session.

(** The statements of [run_continuous] before the loop. *)
Definition startup : M unit :=
  modify (set_running true) ;;
  log_system_event "listener_started"
    (PyDict [("wake_words", PyList (map PyStr wake_words))]) ;;
  speak "Wake word listener active. Say Hey Claude to activate me." ;;
  modify (set_wake_detected_count 0).

(** The loop and what follows it; [None] when the loop is still running
    after [fuel] passes. *)
Definition loop_and_cleanup (fuel : nat) : M (option report) :=
  left <- while_running fuel ;;
  if left then r <- cleanup ;; ret (Some r) else ret None.

(** [WakeWordListener.run_continuous]. *)
Definition run_continuous (fuel : nat) : M (option report) :=
  startup ;;
  loop_and_cleanup fuel.

End WithListener.

End Listener.

(* ===================================================================== *)
(** ** Notions used to state the properties *)
(* ===================================================================== *)

(** *** The wake gate *)

Module Gate.
Import PyStr Py Data Sys Analytics Listener.
Local Open Scope py_scope.

(** The two places where the loop of [run_continuous] waits for the
    microphone: in [listen_for_wake_word] ([Idle]) and in
    [listen_for_command] ([CommandWindow]). *)
Inductive WakeState := Idle | CommandWindow.

Section WithListener.
Variable lower : string -> string.
Variable wake_words : list string.

(** One transition of the gate: the part of the [try] block that runs from
    one wait for the microphone to the next, under the [except] clauses of
    the loop. *)
Definition gate_step (g : WakeState) : M (control * WakeState) :=
  match g with
  | Idle =>
      try_except
        (detected <- listen_for_wake_word lower wake_words (Some 60) ;;
         if detected then
           acknowledge ;;
           ret (Next, CommandWindow)
         else
           sleep ;;
           ret (Next, Idle))
        (fun e => c <- loop_handler e ;; ret (c, Idle))
  | CommandWindow =>
      try_except
        (c <- command_window lower ;; ret (c, Idle))
        (fun e => c <- loop_handler e ;; ret (c, Idle))
  end.

(** One pass of the loop as transitions of the gate, started in [Idle]. *)
Definition pass : M control :=
  r <- gate_step Idle ;;
  match r with
  | (Next, CommandWindow) =>
      r' <- gate_step CommandWindow ;;
      ret (fst r')
  | (c, _) => ret c
  end.

End WithListener.

(** Every write to disk succeeds. *)
Definition healthy (w : world) : Prop := forall i, disk w i = Written.

(** The world in which [WakeWordListener.__init__] has run. *)
Definition boot (mic : nat -> capture_outcome) (tts : nat -> option string)
    (disk : nat -> write_outcome) : world :=
  snd (init_analytics
         (mk_world mic 0 tts 0 disk 0 0 (new_session_data 0 0)
            Absent Absent Absent false 0 [])).

End Gate.

(** *** Replaying the event log *)

Module Replay.
Import Py Data Sys Analytics.

Definition has_type (event_type : string) (e : event) : bool :=
  String.eqb (type e) event_type.

(** The characters an event adds to a character total: the length of its
    [text], nothing when it has none. *)
Definition text_chars (e : event) : nat :=
  match len (get (data e) "text" (PyStr "")) with
  | Some n => n
  | None => 0
  end.

(** The statistics recomputed from an event sequence: a count per event
    type and the characters of the spoken and of the heard events. *)
Definition replay (evs : list event) : stats :=
  mk_stats
    (List.length (filter (has_type "tts") evs))
    (List.length (filter (has_type "stt") evs))
    (List.length (filter (has_type "command") evs))
    (List.length (filter (has_type "error") evs))
    (list_sum (map text_chars (filter (has_type "tts") evs)))
    (list_sum (map text_chars (filter (has_type "stt") evs)))
    0.

(** The update that one event makes to the statistics. *)
Definition update (s : stats) (e : event) : stats :=
  mk_stats
    (tts_events s + if has_type "tts" e then 1 else 0)
    (stt_events s + if has_type "stt" e then 1 else 0)
    (commands_processed s + if has_type "command" e then 1 else 0)
    (errors s + if has_type "error" e then 1 else 0)
    (total_chars_spoken s + if has_type "tts" e then text_chars e else 0)
    (total_chars_heard s + if has_type "stt" e then text_chars e else 0)
    (avg_response_time s).

(** K calls of [log_event], one after the other; a call that raises leaves
    the state it reached to the next one. *)
Fixpoint record_all (inputs : list (string * dict)) (w : world) : world :=
  match inputs with
  | [] => w
  | (event_type, data) :: rest =>
      record_all rest (snd (log_event event_type data w))
  end.

(** The [text] of a spoken or heard event can be measured by [len]. *)
Definition sized_text (input : string * dict) : Prop :=
  String.eqb (fst input) "tts" || String.eqb (fst input) "stt" = true ->
  len (get (snd input) "text" (PyStr "")) <> None.

(** What an event says, without its time stamp. *)
Definition content (e : event) : string * dict := (type e, data e).

End Replay.

(** *** The keyword groups of [process_command] *)

Module Commands.
Import PyStr.

(** The keyword groups in the order claimed, each with its response. *)
Definition groups : list (list string * string) :=
  [ (["status"; "how are"],
     "Platform status: Fully operational. Revenue system live, cloud services running 24/7, Trinity engines active. 5 human tasks remaining.");
    (["deploy"],
     "Deployment system ready. Use AUTO DEPLOY SYSTEM script to deploy changes with one command.");
    (["payment"; "stripe"; "revenue"],
     "Stripe payment system is live and accepting real payments. Revenue operational.");
    (["cloud"; "render"; "services"],
     "Consciousness services running on Render dot com 24/7. C1 Mechanic, C2 Architect, C3 Oracle all operational.");
    (["cockpit"; "tasks"],
     "Commander Cockpit shows 5 human tasks, 9 missing APIs, approximately 1.5 hours remaining.");
    (["help"; "what can"],
     "I can provide status updates, deployment information, payment system status, cloud services status, cockpit tasks, and general platform information. Just say Hey Claude followed by your question.");
    (["thank"],
     "You're welcome Commander! The consciousness revolution continues.");
    (["stop"; "exit"; "shutdown"], "STOP_LISTENING") ].

(** The response of the first group one of whose keywords occurs in
    [text]. *)
Fixpoint first_group (text : string) (gs : list (list string * string))
  : option string :=
  match gs with
  | [] => None
  | (kws, response) :: rest =>
      if existsb (fun keyword => contains keyword text) kws
      then Some response
      else first_group text rest
  end.

End Commands.


(** *** Invariants of a session *)

Module Invariants.
Import Py Data Sys Replay.

(** The statistics of a session document are those of its event list. *)
Definition consistent (sd : session_data_t) : Prop :=
  statistics sd = replay (events sd).

(** The in-memory session is consistent, and a session file that holds a
    snapshot holds a consistent one whose events are an initial part of the
    events in memory. *)
Definition crash_safe (w : world) : Prop :=
  consistent (session_data w) /\
  match session_file w with
  | Holds sd =>
      consistent sd /\
      exists later, events (session_data w) = (events sd ++ later)%list
  | Absent | Torn => True
  end.

(** The text of a spoken event. *)
Definition tts_text (e : event) : option string :=
  if String.eqb (type e) "tts"
  then match get (data e) "text" PyNone with
       | PyStr s => Some s
       | _ => None
       end
  else None.

(** Whatever the speech engine has said was recorded as a spoken event. *)
Definition said_is_logged (w : world) : Prop :=
  forall s, In s (spoken w) ->
    exists e, In e (events (session_data w)) /\ tts_text e = Some s.

(** The session of [w'] continues the session of [w]: its events start with
    those of [w]. *)
Definition continues (w w' : world) : Prop :=
  exists later,
    events (session_data w') = (events (session_data w) ++ later)%list.

(** A program keeps a property of the world, however it ends. *)
Definition keeps (P : world -> Prop) {A : Type} (m : M A) : Prop :=
  forall w, P w -> P (snd (m w)).

End Invariants.

(** *** VOICE_WAKE_WORD_LISTENER.py: the choice of the microphone *)

Module Microphones.
Import PyStr Py.

Section WithLower.
Variable lower : string -> string.

(** The first loop of [_find_shokz_microphone], from index [i] on. *)
Fixpoint headset_loop (i : nat) (mic_list : list string) : option nat :=
  match mic_list with
  | [] => None
  | name :: rest =>
      let name_lower := lower name in
      if contains "shokz" name_lower &&
         (contains "headset" name_lower || contains "input" name_lower)
      then
        if contains "headset" name_lower then Some i
        else headset_loop (S i) rest
      else headset_loop (S i) rest
  end.

(** The second loop, from index [i] on. *)
Fixpoint input_loop (i : nat) (mic_list : list string) : option nat :=
  match mic_list with
  | [] => None
  | name :: rest =>
      if contains "shokz" (lower name) && contains "input" (lower name)
      then Some i
      else input_loop (S i) rest
  end.

(** [WakeWordListener._find_shokz_microphone]; [listing] is what
    [sr.Microphone.list_microphone_names()] gives. *)
Definition _find_shokz_microphone (listing : result (list string))
  : result (option nat) :=
  match listing with
  | Ok mic_list =>
      match headset_loop 0 mic_list with
      | Some i => Ok (Some i)
      | None => Ok (input_loop 0 mic_list)
      end
  | Raise e => if is_Exception e then Ok None else Raise e
  end.

(** The first index, counted from [i], of a name that satisfies [p]. *)
Fixpoint first_index (p : string -> bool) (i : nat) (names : list string)
  : option nat :=
  match names with
  | [] => None
  | name :: rest => if p name then Some i else first_index p (S i) rest
  end.

(** A Shokz headset microphone, a Shokz input device. *)
Definition shokz_headset (name : string) : bool :=
  contains "shokz" (lower name) && contains "headset" (lower name).

Definition shokz_input (name : string) : bool :=
  contains "shokz" (lower name) && contains "input" (lower name).

End WithLower.

End Microphones.

(** *** VOICE_ROUTER_SYSTEM.py: the responses of the agents *)

Module Responses.
Import PyStr Router.

(** The dict [responses] of [agent_response]. *)
Definition responses (message_text : string) : list (string * string) :=
  [ ("Security Bot",
     "🔒 Security analysis: Checking '" ++ message_text ++
     "' for vulnerabilities...");
    ("System Bot",
     "💻 System command recognized. Processing '" ++ message_text ++ "'...");
    ("C1 Mechanic",
     "🔧 Build request received. Planning '" ++ message_text ++ "'...");
    ("C2 Architect",
     "🏗️  Architecture analysis for '" ++ message_text ++ "'...");
    ("C3 Oracle",
     "🔮 Pattern recognition active. Analyzing '" ++ message_text ++ "'...");
    ("Comms Bot",
     "📡 Communications request. Processing '" ++ message_text ++ "'...");
    ("General Assistant",
     "💬 I heard '" ++ message_text ++ "'. How can I help?") ].

(** [d.get(key, default)] on a dict of strings. *)
Fixpoint get_response (d : list (string * string)) (key default : string)
  : string :=
  match d with
  | [] => default
  | (k, v) :: d' => if String.eqb k key then v else get_response d' key default
  end.

(** [VoiceRouter.agent_response]: the line it prints. *)
Definition agent_response (agent_name color message_text : string)
  : string :=
  let response :=
    get_response (responses message_text) agent_name
      ("Agent " ++ agent_name ++ " processing...") in
  color ++ response ++ ESC ++ "[0m".

End Responses.

(* ===================================================================== *)
(** * Properties *)
(* ===================================================================== *)

(* --------------------------------------------------------------------- *)
(** ** The router *)
(* --------------------------------------------------------------------- *)

Section RouterProperties.
Import PyStr Router.

(** *** Substring containment *)

Lemma prefix_app (k t : string) :
  prefix k t = true <-> exists post, t = k ++ post.
Proof.
  revert t. induction k as [|c k IH]; intros t; simpl.
  - destruct t; split; eauto.
  - destruct t as [|d t].
    + split; [discriminate | intros [post H]; discriminate].
    + simpl. destruct (Ascii.ascii_dec c d) as [->|Hcd].
      * rewrite IH. split; intros [post H]; exists post.
        -- now subst.
        -- now injection H.
      * split; [discriminate|]. intros [post H]. injection H as H1 H2.
        congruence.
Qed.

Lemma contains_substring (k t : string) :
  contains k t = true <-> exists pre post, t = pre ++ k ++ post.
Proof.
  induction t as [|d t IH].
  - cbn [contains]. rewrite orb_false_r, prefix_app. split.
    + intros [post H]. exists "", post. exact H.
    + intros [pre [post H]]. destruct pre; simpl in H.
      * now exists post.
      * discriminate.
  - cbn [contains]. rewrite orb_true_iff, IH, prefix_app. split.
    + intros [[post H] | [pre [post H]]].
      * exists "", post. exact H.
      * exists (String d pre), post. simpl. now rewrite H.
    + intros [pre [post H]]. destruct pre as [|e pre]; simpl in H.
      * left. now exists post.
      * right. injection H as _ H. now exists pre, post.
Qed.

(** *** The two loops of [route_to_agents] *)

Lemma scan_keywords_hits text agent_name config kws acc :
  scan_keywords text agent_name config kws acc =
  (acc ++ if existsb (fun keyword => contains keyword text) kws
          then [mk_agent agent_name (priority config) (color config)]
          else [])%list.
Proof.
  induction kws as [|k kws IH]; simpl.
  - now rewrite app_nil_r.
  - destruct (contains k text); simpl; [reflexivity | exact IH].
Qed.

Lemma scan_keywords_break text agent_name config pre keyword post post' acc :
  contains keyword text = true ->
  scan_keywords text agent_name config (pre ++ keyword :: post) acc =
  scan_keywords text agent_name config (pre ++ keyword :: post') acc.
Proof.
  intros Hk. induction pre as [|k pre IH]; simpl.
  - now rewrite Hk.
  - destruct (contains k text); [reflexivity | exact IH].
Qed.

Lemma scan_agents_filter text agents acc :
  scan_agents text agents acc =
  (acc ++ map agent_of (filter (fun e => hits text (snd e)) agents))%list.
Proof.
  revert acc. induction agents as [|[n c] agents IH]; intros acc; simpl.
  - now rewrite app_nil_r.
  - rewrite IH, scan_keywords_hits. unfold hits at 2.
    destruct (existsb _ (keywords c)); simpl.
    + now rewrite <- app_assoc.
    + now rewrite app_nil_r.
Qed.

(** *** The stable sort *)

Lemma insert_desc_perm x l : Permutation (x :: l) (insert_desc x l).
Proof.
  induction l as [|y l IH]; simpl; [reflexivity|].
  destruct (agent_priority y <=? agent_priority x)%Z; [reflexivity|].
  rewrite perm_swap. now constructor.
Qed.

Lemma sort_desc_perm l : Permutation l (sort_desc l).
Proof.
  induction l as [|x l IH]; simpl; [constructor|].
  rewrite <- insert_desc_perm. now constructor.
Qed.

Lemma sort_desc_nil l : sort_desc l = [] -> l = [].
Proof.
  intros H. apply Permutation_nil. rewrite <- H. symmetry. apply sort_desc_perm.
Qed.

Lemma insert_desc_sorted x l :
  StronglySorted routed_before l ->
  Forall (registered_before x) l ->
  StronglySorted routed_before (insert_desc x l).
Proof.
  induction 1 as [|y l Hl IH Hy]; intros Hx; simpl.
  - repeat constructor.
  - inversion Hx as [|? ? Hxy Hxl]; subst.
    destruct (agent_priority y <=? agent_priority x)%Z eqn:E.
    + apply Z.leb_le in E. constructor; [now constructor|].
      constructor.
      * destruct (Z.eq_dec (agent_priority x) (agent_priority y));
          [right; now split | left; lia].
      * rewrite Forall_forall in *. intros z Hz.
        specialize (Hy z Hz). specialize (Hxl z Hz).
        destruct (Z.eq_dec (agent_priority x) (agent_priority z));
          [right; now split | left].
        destruct Hy as [Hy | [Hy _]]; lia.
    + apply Z.leb_gt in E. constructor; [now apply IH|].
      rewrite Forall_forall in *. intros z Hz.
      apply (Permutation_in _ (Permutation_sym (insert_desc_perm x l))) in Hz.
      destruct Hz as [<-|Hz]; [left; lia | now apply Hy].
Qed.

Lemma sort_desc_sorted l :
  StronglySorted registered_before l ->
  StronglySorted routed_before (sort_desc l).
Proof.
  induction 1 as [|x l Hl IH Hx]; simpl; [constructor|].
  apply insert_desc_sorted; [exact IH|].
  rewrite Forall_forall in *. intros z Hz. apply Hx.
  apply (Permutation_in _ (Permutation_sym (sort_desc_perm l))). exact Hz.
Qed.

Lemma StronglySorted_filter {A} (R : A -> A -> Prop) (f : A -> bool) l :
  StronglySorted R l -> StronglySorted R (filter f l).
Proof.
  induction 1 as [|x l Hl IH Hx]; simpl; [constructor|].
  destruct (f x); [|exact IH]. constructor; [exact IH|].
  rewrite Forall_forall in *. intros z Hz. apply Hx.
  now apply filter_In in Hz.
Qed.

Lemma StronglySorted_map {A B} (R : B -> B -> Prop) (g : A -> B) l :
  StronglySorted (fun a b => R (g a) (g b)) l -> StronglySorted R (map g l).
Proof.
  induction 1 as [|x l Hl IH Hx]; simpl; constructor; [exact IH|].
  rewrite Forall_forall in *. intros z Hz.
  apply in_map_iff in Hz. destruct Hz as [a [<- Ha]]. now apply Hx.
Qed.

Lemma StronglySorted_nth_error {A} (R : A -> A -> Prop) l i j a b :
  StronglySorted R l -> i < j ->
  nth_error l i = Some a -> nth_error l j = Some b -> R a b.
Proof.
  intros Hl. revert i j. induction Hl as [|x l Hl IH Hx]; intros i j Hij Ha Hb.
  - destruct i; discriminate.
  - destruct j as [|j]; [lia|]. simpl in Hb. destruct i as [|i]; simpl in Ha.
    + injection Ha as ->. rewrite Forall_forall in Hx. apply Hx.
      eapply nth_error_In; eauto.
    + apply (IH i j); auto. lia.
Qed.

Lemma AGENTS_registration_order :
  StronglySorted
    (fun e1 e2 => registered_before (agent_of e1) (agent_of e2)) AGENTS.
Proof.
  unfold AGENTS. repeat (constructor; [|repeat constructor; vm_compute; lia]).
  constructor.
Qed.

Lemma AGENTS_names_NoDup : NoDup (map fst AGENTS).
Proof.
  simpl. repeat (constructor; [simpl; intuition discriminate|]). constructor.
Qed.

Lemma collected_registration_order text :
  StronglySorted registered_before (scan_agents text AGENTS []).
Proof.
  rewrite scan_agents_filter, app_nil_l.
  apply StronglySorted_map, StronglySorted_filter, AGENTS_registration_order.
Qed.

(** *** Matches of one agent *)

Lemma matches_for_collected text agents agent_name config :
  NoDup (map fst agents) ->
  In (agent_name, config) agents ->
  matches_for agent_name
    (map agent_of (filter (fun e => hits text (snd e)) agents)) =
  if hits text config then [agent_of (agent_name, config)] else [].
Proof.
  unfold matches_for.
  induction agents as [|[n c] agents IH]; intros Hnd Hin; [destruct Hin|].
  simpl in Hnd. inversion Hnd as [|? ? Hn Hnd']; subst.
  assert (Hrest : forall cfg, In (agent_name, cfg) agents -> n <> agent_name).
  { intros cfg Hc ->. apply Hn. apply in_map_iff.
    now exists (agent_name, cfg). }
  destruct Hin as [Heq | Hin].
  - injection Heq as -> ->.
    assert (Hnone : filter (fun a => String.eqb (name a) agent_name)
                      (map agent_of
                         (filter (fun e => hits text (snd e)) agents)) = []).
    { clear IH Hrest Hnd. induction agents as [|[n' c'] agents IH]; [reflexivity|].
      simpl in Hn, Hnd'. inversion Hnd' as [|? ? _ Hnd'']; subst.
      assert (Hn' : ~ In agent_name (map fst agents)) by tauto.
      simpl. destruct (hits text c'); simpl.
      - destruct (String.eqb_spec n' agent_name) as [E|_]; [tauto|].
        now apply IH.
      - now apply IH. }
    simpl. destruct (hits text config); simpl.
    + rewrite String.eqb_refl, Hnone. reflexivity.
    + exact Hnone.
  - specialize (IH Hnd' Hin). simpl.
    destruct (hits text c); simpl; [|exact IH].
    destruct (String.eqb_spec n agent_name) as [E|_]; [|exact IH].
    exfalso. exact (Hrest config Hin E).
Qed.

Lemma matches_for_perm agent_name l l' :
  Permutation l l' ->
  Permutation (matches_for agent_name l) (matches_for agent_name l').
Proof.
  unfold matches_for.
  induction 1 as [| x l l' _ IH | x y l | l l' l'' _ IH1 _ IH2]; simpl.
  - constructor.
  - destruct (String.eqb (name x) agent_name); [now constructor | exact IH].
  - destruct (String.eqb (name x) agent_name),
             (String.eqb (name y) agent_name);
      try reflexivity. apply perm_swap.
  - now transitivity (filter (fun a => String.eqb (name a) agent_name) l').
Qed.

Lemma matches_for_sorted text agent_name config :
  In (agent_name, config) AGENTS ->
  matches_for agent_name (sort_desc (scan_agents text AGENTS [])) =
  if hits text config then [agent_of (agent_name, config)] else [].
Proof.
  intros Hin.
  pose proof (matches_for_perm agent_name _ _
                (sort_desc_perm (scan_agents text AGENTS []))) as HP.
  rewrite scan_agents_filter, app_nil_l in HP at 1.
  rewrite (matches_for_collected text AGENTS agent_name config
             AGENTS_names_NoDup Hin) in HP.
  destruct (hits text config).
  - now apply Permutation_length_1_inv in HP.
  - now apply Permutation_nil in HP.
Qed.

Lemma hits_true text config :
  hits text config = true <->
  exists keyword, In keyword (keywords config) /\ contains keyword text = true.
Proof. unfold hits. apply existsb_exists. Qed.

Lemma hits_false text config :
  hits text config = false <->
  forall keyword, In keyword (keywords config) -> contains keyword text = false.
Proof.
  unfold hits. split.
  - intros H k Hk. destruct (contains k text) eqn:E; [|reflexivity].
    rewrite <- H. symmetry. apply existsb_exists. eauto.
  - intros H. destruct (existsb _ _) eqn:E; [|reflexivity].
    apply existsb_exists in E. destruct E as [k [Hk Hc]].
    rewrite (H k Hk) in Hc. discriminate.
Qed.

Lemma collected_nil text :
  scan_agents text AGENTS [] = [] <->
  forall agent_name config,
    In (agent_name, config) AGENTS -> hits text config = false.
Proof.
  rewrite scan_agents_filter, app_nil_l. split.
  - intros H n c Hin. destruct (hits text c) eqn:E; [|reflexivity].
    exfalso. apply map_eq_nil in H.
    assert (Hf : In (n, c) (filter (fun e => hits text (snd e)) AGENTS)).
    { apply filter_In. split; [exact Hin | exact E]. }
    rewrite H in Hf. destruct Hf.
  - intros H. assert (Hf : forall l : list (string * agent_config),
        (forall n c, In (n, c) l -> hits text c = false) ->
        filter (fun e => hits text (snd e)) l = []).
    { induction l as [|[n c] l IH]; intros Hl; [reflexivity|]. simpl.
      rewrite (Hl n c (or_introl eq_refl)). apply IH.
      intros n' c' Hin. apply (Hl n' c'). now right. }
    rewrite (Hf AGENTS H). reflexivity.
Qed.

Lemma StronglySorted_weaken {A} (R R' : A -> A -> Prop) l :
  (forall a b, R a b -> R' a b) -> StronglySorted R l -> StronglySorted R' l.
Proof.
  intros HR. induction 1 as [|x l Hl IH Hx]; constructor; [exact IH|].
  eapply Forall_impl; [|exact Hx]. intros b. apply HR.
Qed.

Lemma route_to_agents_cases lower msg :
  let collected := scan_agents (lower (text msg)) AGENTS [] in
  (collected = [] /\
   route_to_agents lower msg =
     Some [mk_agent "General Assistant" 1 (ESC ++ "[97m")]) \/
  (collected <> [] /\ route_to_agents lower msg = Some (sort_desc collected)).
Proof.
  intros collected. unfold route_to_agents. fold collected.
  destruct (sort_desc collected) as [|a l] eqn:E.
  - left. split; [now apply sort_desc_nil | reflexivity].
  - right. split; [|reflexivity]. intros H. rewrite H in E. discriminate.
Qed.

(** C1 (as amended): every registered agent with a keyword occurring in the
    lowercased transcript gets exactly one match in the routing result,
    carrying its name, priority and colour; the inner loop stops at the first
    keyword that hits, so its result does not depend on the keywords after
    it; and an agent none of whose keywords occurs has no match in the
    result, unless it is the fallback 'General Assistant' and no keyword of
    any agent occurs. *)
Theorem route_to_agents_one_match_per_agent
    (lower : string -> string) (msg : message)
    (agent_name : string) (config : agent_config) :
  In (agent_name, config) AGENTS ->
  exists agents,
    route_to_agents lower msg = Some agents /\
    (forall keyword,
        In keyword (keywords config) ->
        contains keyword (lower (text msg)) = true ->
        matches_for agent_name agents = [agent_of (agent_name, config)]) /\
    ((forall keyword,
        In keyword (keywords config) ->
        contains keyword (lower (text msg)) = false) ->
     (agent_name <> "General Assistant" \/
      exists other other_config,
        In (other, other_config) AGENTS /\
        hits (lower (text msg)) other_config = true) ->
     matches_for agent_name agents = []) /\
    (forall pre keyword post post' acc,
        keywords config = (pre ++ keyword :: post)%list ->
        contains keyword (lower (text msg)) = true ->
        scan_keywords (lower (text msg)) agent_name config
          (pre ++ keyword :: post') acc =
        scan_keywords (lower (text msg)) agent_name config
          (keywords config) acc).
Proof.
  intros Hin.
  destruct (route_to_agents_cases lower msg) as [[Hnil Hr] | [Hne Hr]];
    rewrite Hr; eexists; (split; [reflexivity|]); repeat split.
  - intros k Hk Hc. exfalso.
    pose proof (proj1 (collected_nil _) Hnil agent_name config Hin) as Hf.
    rewrite (proj1 (hits_false _ _) Hf k Hk) in Hc. discriminate.
  - intros _ [Hga | [n [c [Hn Hh]]]].
    + unfold matches_for. cbn [filter name].
      destruct (String.eqb_spec "General Assistant" agent_name);
        [congruence | reflexivity].
    + exfalso.
      rewrite (proj1 (collected_nil _) Hnil n c Hn) in Hh. discriminate.
  - intros pre k post post' acc -> Hc. now apply scan_keywords_break.
  - intros k Hk Hc. rewrite (matches_for_sorted _ _ _ Hin).
    replace (hits (lower (text msg)) config) with true; [reflexivity|].
    symmetry. apply hits_true. eauto.
  - intros Hf _. rewrite (matches_for_sorted _ _ _ Hin).
    now rewrite (proj2 (hits_false _ _) Hf).
  - intros pre k post post' acc -> Hc. now apply scan_keywords_break.
Qed.

Lemma route_to_agents_one_match_per_agent_witness :
  exists agents,
    route_to_agents ascii_lower (mk_message "Check SECURITY now" "12:00:00")
      = Some agents /\
    matches_for "Security Bot" agents =
      [mk_agent "Security Bot" 10 (ESC ++ "[91m")].
Proof.
  destruct (route_to_agents_one_match_per_agent ascii_lower
              (mk_message "Check SECURITY now" "12:00:00") "Security Bot"
              (mk_config ["security"; "password"; "login"; "auth"; "hack";
                          "breach"; "vulnerability"] 10 (ESC ++ "[91m")))
    as [agents [Hr [Hhit _]]].
  - simpl. left. reflexivity.
  - exists agents. split; [exact Hr|].
    apply (Hhit "security"); [simpl; auto | reflexivity].
Defined.

(** The claim C1 as stated fails for the fallback agent: no keyword of
    'General Assistant' occurs in "xyzzy", yet the routing result holds a
    match for it. *)
Lemma route_to_agents_fallback_matches_without_keyword :
  let msg := mk_message "xyzzy" "12:00:00" in
  exists config agents,
    In ("General Assistant", config) AGENTS /\
    (forall keyword,
        In keyword (keywords config) ->
        contains keyword (ascii_lower (text msg)) = false) /\
    route_to_agents ascii_lower msg = Some agents /\
    matches_for "General Assistant" agents <> [].
Proof.
  simpl.
  exists (mk_config ["help"; "what"; "how"; "why"; "when"; "where"]
            1 (ESC ++ "[97m")).
  exists [mk_agent "General Assistant" 1 (ESC ++ "[97m")].
  split; [simpl; tauto|]. split.
  - intros k Hk. simpl in Hk.
    repeat (destruct Hk as [<-|Hk]; [reflexivity|]). destruct Hk.
  - split; [reflexivity | discriminate].
Qed.

(** C2: the routing result is sorted by priority in descending order, two
    returned agents of equal priority stand in their registration order in
    [AGENTS], and every returned agent is a registered one. *)
Theorem route_to_agents_priority_order
    (lower : string -> string) (msg : message) :
  exists agents,
    route_to_agents lower msg = Some agents /\
    StronglySorted
      (fun a b => (agent_priority b <= agent_priority a)%Z) agents /\
    (forall i j a b,
        i < j ->
        nth_error agents i = Some a -> nth_error agents j = Some b ->
        agent_priority a = agent_priority b ->
        registration_index (name a) < registration_index (name b)) /\
    (forall a, In a agents ->
        exists config,
          In (name a, config) AGENTS /\ a = agent_of (name a, config)).
Proof.
  destruct (route_to_agents_cases lower msg) as [[Hnil Hr] | [Hne Hr]];
    rewrite Hr; eexists; (split; [reflexivity|]).
  - split; [repeat constructor|]. split.
    + intros i j a b Hij Ha Hb. destruct j as [|j]; [lia|].
      simpl in Hb. destruct j; discriminate.
    + intros a [<-|[]].
      exists (mk_config ["help"; "what"; "how"; "why"; "when"; "where"]
                1 (ESC ++ "[97m")).
      split; [simpl; tauto | reflexivity].
  - pose proof (sort_desc_sorted _ (collected_registration_order
                                      (lower (text msg)))) as Hs.
    split; [|split].
    + eapply StronglySorted_weaken; [|exact Hs].
      intros a b [H | [H _]]; lia.
    + intros i j a b Hij Ha Hb Hp.
      destruct (StronglySorted_nth_error _ _ _ _ _ _ Hs Hij Ha Hb)
        as [H | [_ H]]; [lia | exact H].
    + intros a Ha.
      apply (Permutation_in _ (Permutation_sym (sort_desc_perm _))) in Ha.
      rewrite scan_agents_filter, app_nil_l in Ha.
      apply in_map_iff in Ha. destruct Ha as [[n c] [<- Hf]].
      apply filter_In in Hf. exists c. simpl. split; [tauto | reflexivity].
Qed.

(** C3: when no keyword of any registered agent occurs in the lowercased
    transcript, the routing result is exactly one match, for
    'General Assistant', whose priority 1 is the lowest of [AGENTS]. *)
Theorem route_to_agents_fallback (lower : string -> string) (msg : message) :
  (forall agent_name config keyword,
      In (agent_name, config) AGENTS ->
      In keyword (keywords config) ->
      contains keyword (lower (text msg)) = false) ->
  route_to_agents lower msg =
    Some [mk_agent "General Assistant" 1 (ESC ++ "[97m")] /\
  dict_get AGENTS "General Assistant" =
    Some (mk_config ["help"; "what"; "how"; "why"; "when"; "where"]
            1 (ESC ++ "[97m")) /\
  (forall agent_name config,
      In (agent_name, config) AGENTS -> (1 <= priority config)%Z).
Proof.
  intros Hno. split; [|split].
  - destruct (route_to_agents_cases lower msg) as [[_ Hr] | [Hne _]];
      [exact Hr|].
    exfalso. apply Hne. apply collected_nil. intros n c Hin.
    apply hits_false. intros k Hk. exact (Hno n c k Hin Hk).
  - reflexivity.
  - intros n c Hin. simpl in Hin.
    repeat (destruct Hin as [Hin|Hin];
            [injection Hin as _ <-; simpl; lia|]).
    destruct Hin.
Qed.

Lemma route_to_agents_fallback_witness :
  route_to_agents ascii_lower (mk_message "xyzzy" "12:00:00") =
    Some [mk_agent "General Assistant" 1 (ESC ++ "[97m")].
Proof.
  apply (route_to_agents_fallback ascii_lower (mk_message "xyzzy" "12:00:00")).
  intros n c k Hin Hk. simpl in Hin.
  repeat (destruct Hin as [Hin|Hin];
          [injection Hin as _ <-; simpl in Hk;
           repeat (destruct Hk as [<-|Hk]; [reflexivity|]); destruct Hk|]).
  destruct Hin.
Defined.

Lemma route_to_agents_priority_order_witness :
  exists agents,
    route_to_agents ascii_lower
      (mk_message "analyze the plan to deploy comms" "12:00:00")
      = Some agents /\
    StronglySorted
      (fun a b => (agent_priority b <= agent_priority a)%Z) agents.
Proof.
  destruct (route_to_agents_priority_order ascii_lower
              (mk_message "analyze the plan to deploy comms" "12:00:00"))
    as [agents [H1 [H2 _]]].
  exists agents. split; [exact H1 | exact H2].
Defined.

End RouterProperties.

(* --------------------------------------------------------------------- *)
(** ** The listener and the analytics logger *)
(* --------------------------------------------------------------------- *)

Section SessionProperties.
Import PyStr Py Data Sys Analytics Listener Gate Replay Commands.

Arguments respond : simpl never.

(** Unfolds the programs and the state they act on, so that a run on a
    world given by its fields computes. *)
Ltac norm :=
  cbv beta iota zeta delta
    [gate_step pass iteration loop_body loop_handler command_window
     acknowledge process_command listen_for_command listen_for_wake_word
     speak cleanup capture say sleep try_except command_given
     log_tts log_stt log_command log_error log_system_event
     log_event _print_event _append_transcript _save py_len modify_statistics
     modify_session_data close_session generate_report
     open_write now modify gets bind ret raise is_Exception healthy
     set_tts_events set_stt_events set_commands_processed set_errors
     set_total_chars_spoken set_total_chars_heard
     set_events set_statistics
     set_last_updated set_end_time
     set_mic_pos set_tts_pos set_disk set_disk_pos
     set_clock set_session_data set_session_file set_transcript_file
     set_report_file set_running set_wake_detected_count set_spoken
     tts_events stt_events commands_processed errors total_chars_spoken
     total_chars_heard avg_response_time
     session_id start_time events statistics last_updated end_time
     mic mic_pos tts_engine tts_pos disk disk_pos clock session_data
     session_file transcript_file report_file running wake_detected_count
     spoken kind str fst snd] in *;
  cbn [String.eqb Ascii.eqb Bool.eqb len get String.length List.length
       String.append truthy negb] in *.

Ltac open_world w :=
  destruct w as [mic mp tts tp disk dp clk
                   [sid st evs [s1 s2 s3 s4 s5 s6 s7] lu et]
                   sf tf rf run cnt sp].

Lemma check_wake_words_true text wws :
  check_wake_words text wws = true <->
  exists ww, In ww wws /\ contains ww text = true.
Proof.
  induction wws as [|x wws IH]; simpl.
  - split; [discriminate | intros [ww [[] _]]].
  - destruct (contains x text) eqn:E.
    + split; [|reflexivity]. intros _. exists x. auto.
    + rewrite IH. split.
      * intros [ww [H1 H2]]. exists ww. auto.
      * intros [ww [[<-|H1] H2]]; [congruence|]. exists ww. auto.
Qed.

Lemma check_wake_words_false text wws :
  check_wake_words text wws = false <->
  forall ww, In ww wws -> contains ww text = false.
Proof.
  split.
  - intros H ww Hin. destruct (contains ww text) eqn:E; [|reflexivity].
    rewrite <- H. symmetry. apply check_wake_words_true. eauto.
  - intros H. destruct (check_wake_words text wws) eqn:E; [|reflexivity].
    apply check_wake_words_true in E. destruct E as [ww [H1 H2]].
    rewrite (H ww H1) in H2. discriminate.
Qed.

#[local] Opaque acknowledge command_window loop_handler listen_for_wake_word.

(** One pass of the loop is a walk of the gate from [Idle]. *)
Lemma iteration_pass lower wake_words w :
  iteration lower wake_words w = pass lower wake_words w.
Proof.
  unfold iteration, pass, gate_step, loop_body, try_except, bind, ret, sleep.
  destruct (listen_for_wake_word lower wake_words (Some 60) w)
    as [[[|]|e] w1]; cbn.
  - destruct (acknowledge w1) as [[[]|e] w2]; cbn.
    + destruct (command_window lower w2) as [[c|e] w3]; cbn; [reflexivity|].
      destruct (loop_handler e w3) as [[c|e'] w4]; reflexivity.
    + destruct (loop_handler e w2) as [[[|]|e'] w3]; reflexivity.
  - reflexivity.
  - destruct (loop_handler e w1) as [[[|]|e'] w2]; reflexivity.
Qed.

#[local] Transparent acknowledge command_window loop_handler
  listen_for_wake_word.

Lemma gate_idle_quiet lower wake_words w heard :
  healthy w ->
  mic w (mic_pos w) = Heard heard ->
  check_wake_words (lower heard) wake_words = false ->
  exists w',
    gate_step lower wake_words Idle w = (Ok (Next, Idle), w') /\
    mic_pos w' = S (mic_pos w) /\ spoken w' = spoken w /\
    running w' = running w /\ healthy w'.
Proof.
  intros Hd Hm Hc. open_world w. norm.
  rewrite Hm. norm. rewrite !Hd.
  destruct (lower heard) as [|c s] eqn:El; norm; rewrite ?Hd; norm;
    rewrite Hc; norm; eexists; (split; [reflexivity|]); norm; auto.
Qed.

Lemma gate_idle_wake lower wake_words w heard :
  healthy w ->
  mic w (mic_pos w) = Heard heard ->
  check_wake_words (lower heard) wake_words = true ->
  exists w',
    gate_step lower wake_words Idle w = (Ok (Next, CommandWindow), w') /\
    mic_pos w' = S (mic_pos w) /\ running w' = running w /\
    mic w' = mic w /\ healthy w' /\
    wake_detected_count w' = wake_detected_count w + 1 /\
    exists said, spoken w' = (spoken w ++ said)%list /\
                 incl said ["Yes Commander?"].
Proof.
  intros Hd Hm Hc. open_world w. norm.
  rewrite Hm. norm. rewrite !Hd.
  destruct (lower heard) as [|c s] eqn:El; norm; rewrite ?Hd; norm;
    rewrite Hc; norm; rewrite ?Hd; norm;
    (destruct (tts tp) as [msg|]; norm; rewrite ?Hd; norm);
    eexists; (split; [reflexivity|]); norm; repeat split; auto;
    first [ exists []; split; [now rewrite app_nil_r | intros x []]
          | eexists; split; [reflexivity | apply incl_refl] ].
Qed.

Ltac go H := norm; repeat (progress (rewrite ?H); norm).

Ltac split_outcomes tts :=
  repeat (norm;
          match goal with
          | H : forall i : nat, _ i = Written |- _ => rewrite ?H
          end;
          norm;
          try match goal with
          | |- context [match tts ?p with _ => _ end] =>
              destruct (tts p) as [?msg|]
          | |- context [if String.eqb ?a ?b then _ else _] =>
              destruct (String.eqb a b) eqn:?
          end).

Lemma gate_window_returns lower wake_words w :
  healthy w ->
  exists c w',
    gate_step lower wake_words CommandWindow w = (Ok (c, Idle), w') /\
    healthy w' /\ (c = Break -> running w' = false) /\
    (c = Next -> running w' = running w).
Proof.
  intros Hd. open_world w. norm.
  destruct (mic mp) as [[|c s]|[[] msg]]; split_outcomes tts;
    do 2 eexists; (split; [reflexivity|]); norm;
    (split; [exact Hd|]); split; intros; congruence.
Qed.

Lemma while_running_step lower wake_words fuel w :
  while_running lower wake_words (S fuel) w =
  if running w then
    match pass lower wake_words w with
    | (Ok Next, w') => while_running lower wake_words fuel w'
    | (Ok Break, w') => (Ok true, w')
    | (Raise e, w') => (Raise e, w')
    end
  else (Ok true, w).
Proof.
  cbn [while_running]. unfold bind, gets, ret.
  destruct (running w); [|reflexivity].
  rewrite iteration_pass.
  destruct (pass lower wake_words w) as [[[|]|e] w']; reflexivity.
Qed.

Lemma window_timeout lower wake_words w e :
  healthy w ->
  mic w (mic_pos w) = Fails e ->
  kind e = WaitTimeoutError ->
  exists w',
    gate_step lower wake_words CommandWindow w = (Ok (Next, Idle), w') /\
    (exists new,
        events (session_data w') = (events (session_data w) ++ new)%list /\
        map content new =
          ([("error",
             [("error_type", PyStr "stt");
              ("message", PyStr "Timeout waiting for command");
              ("details", PyNone)]);
            ("tts",
             [("text", PyStr "I didn't hear a command. Try again.");
              ("chars", PyInt 35); ("duration", PyNone);
              ("success", PyBool true)])] ++
           match tts_engine w (tts_pos w) with
           | None => []
           | Some msg =>
               [("error",
                 [("error_type", PyStr "tts"); ("message", PyStr msg);
                  ("details", PyNone)])]
           end)%list) /\
    spoken w' =
      (spoken w ++
       match tts_engine w (tts_pos w) with
       | None => ["I didn't hear a command. Try again."]
       | Some _ => []
       end)%list /\
    commands_processed (statistics (session_data w')) =
      commands_processed (statistics (session_data w)) /\
    session_file w' = Holds (session_data w') /\
    mic_pos w' = S (mic_pos w) /\
    running w' = running w.
Proof.
  intros Hd Hm Hk. open_world w. destruct e as [k msg]. norm. subst k.
  rewrite Hm. go Hd.
  destruct (tts tp) as [m|]; go Hd;
    eexists; (split; [reflexivity|]); norm;
    (split; [|repeat split; try reflexivity; now rewrite ?app_nil_r]);
    rewrite <- !app_assoc; eexists; (split; [reflexivity|]); reflexivity.
Qed.

Lemma window_stop lower wake_words w command :
  healthy w ->
  mic w (mic_pos w) = Heard command ->
  truthy command = true ->
  respond command (lower command) = "STOP_LISTENING" ->
  exists w',
    gate_step lower wake_words CommandWindow w = (Ok (Break, Idle), w') /\
    running w' = false /\
    mic_pos w' = S (mic_pos w) /\
    healthy w' /\
    wake_detected_count w' = wake_detected_count w /\
    exists said, spoken w' = (spoken w ++ said)%list /\
                 incl said ["Stopping listener. Goodbye Commander!"].
Proof.
  intros Hd Hm Ht Hr. open_world w. norm.
  rewrite Hm. destruct command as [|c s]; [discriminate|].
  go Hd. rewrite Hr. go Hd.
  destruct (tts tp) as [m|]; go Hd;
    eexists; (split; [reflexivity|]); norm; repeat split; auto.
  - exists []. split; [now rewrite app_nil_r | intros x []].
  - eexists. split; [reflexivity | apply incl_refl].
Qed.

Lemma window_response lower wake_words w command :
  healthy w ->
  mic w (mic_pos w) = Heard command ->
  truthy command = true ->
  respond command (lower command) <> "STOP_LISTENING" ->
  exists w',
    gate_step lower wake_words CommandWindow w = (Ok (Next, Idle), w') /\
    running w' = running w /\
    mic_pos w' = S (mic_pos w) /\
    exists said, spoken w' = (spoken w ++ said)%list /\
                 incl said [respond command (lower command)].
Proof.
  intros Hd Hm Ht Hr. open_world w. norm.
  rewrite Hm. destruct command as [|c s]; [discriminate|].
  go Hd. apply String.eqb_neq in Hr. rewrite Hr. go Hd.
  destruct (tts tp) as [m|]; go Hd;
    eexists; (split; [reflexivity|]); norm; repeat split; auto.
  - exists []. split; [now rewrite app_nil_r | intros x []].
  - eexists. split; [reflexivity | apply incl_refl].
Qed.

Lemma cleanup_healthy w :
  healthy w ->
  exists r w',
    cleanup w = (Ok r, w') /\
    (exists t, end_time (session_data w') = Some t) /\
    session_file w' = Holds (session_data w') /\
    report_file w' = Holds r /\
    report_statistics r = statistics (session_data w') /\
    report_events r = List.length (events (session_data w')) /\
    mic_pos w' = mic_pos w /\ spoken w' = spoken w /\
    running w' = running w.
Proof.
  intros Hd. open_world w. go Hd.
  do 2 eexists. split; [reflexivity|]. norm.
  repeat split; try reflexivity. eexists. reflexivity.
Qed.

Lemma respond_first_group command command_lower :
  respond command command_lower =
  match first_group command_lower groups with
  | Some response => response
  | None =>
      "Command received: " ++ command ++
      ". I'm still learning new commands. Try asking about status, deploy, payment, cloud, or cockpit."
  end.
Proof.
  unfold respond, groups. cbn [first_group existsb].
  repeat match goal with
         | |- context [contains ?k command_lower] =>
             destruct (contains k command_lower); cbn [orb]; try reflexivity
         end.
Qed.

Lemma process_command_responds lower w command :
  truthy command = true ->
  disk w (disk_pos w) = Written ->
  exists w',
    process_command lower (Some command) w =
      (Ok (respond command (lower command)), w') /\
    (exists t,
        events (session_data w') =
          (events (session_data w) ++
           [mk_event t "command"
              [("command", PyStr command); ("response", PyStr "processing");
               ("processing_time", PyNone)]])%list) /\
    running w' = running w /\ spoken w' = spoken w.
Proof.
  intros Ht Hd. open_world w. destruct command as [|c s]; [discriminate|].
  go Hd. eexists. split; [reflexivity|]. norm.
  repeat split; try reflexivity. eexists. reflexivity.
Qed.

Lemma stop_is_last_group command_lower :
  first_group command_lower groups = Some "STOP_LISTENING" ->
  forall kws response keyword,
    In (kws, response) (firstn 7 groups) -> In keyword kws ->
    contains keyword command_lower = false.
Proof.
  intros H kws response keyword Hg Hk.
  destruct (contains keyword command_lower) eqn:E; [exfalso | reflexivity].
  unfold groups in H, Hg. cbn [first_group existsb] in H.
  cbn [firstn In] in Hg.
  repeat (destruct Hg as [Hg|Hg];
          [injection Hg as <- <-; cbn [In] in Hk;
           repeat (destruct Hk as [<-|Hk];
                   [rewrite E in H; cbn [orb] in H;
                    repeat match type of H with
                           | context [contains ?k command_lower] =>
                               destruct (contains k command_lower);
                               cbn [orb] in H
                           end; discriminate|]);
           destruct Hk|]).
  destruct Hg.
Qed.

(** The walk of the gate when every write succeeds: every pass of the loop
    starts the gate in Idle; in Idle a transcript whose lowercased text
    contains none of the wake phrases, taken as they are configured, leaves
    the gate in Idle, and one whose lowercased text contains one of them
    opens the command window; a command window always ends in Idle, whatever
    it produced, the loop going on to the next wake test unless the window
    stopped it. *)
Theorem wake_gate (lower : string -> string) (wake_words : list string)
    (w : world) :
  healthy w ->
  (forall fuel,
      while_running lower wake_words (S fuel) w =
      if running w then
        match pass lower wake_words w with
        | (Ok Next, w') => while_running lower wake_words fuel w'
        | (Ok Break, w') => (Ok true, w')
        | (Raise e, w') => (Raise e, w')
        end
      else (Ok true, w)) /\
  (forall heard,
      mic w (mic_pos w) = Heard heard ->
      (forall ww, In ww wake_words -> contains ww (lower heard) = false) ->
      exists w',
        gate_step lower wake_words Idle w = (Ok (Next, Idle), w') /\
        mic_pos w' = S (mic_pos w) /\ spoken w' = spoken w /\
        running w' = running w) /\
  (forall heard ww,
      mic w (mic_pos w) = Heard heard ->
      In ww wake_words -> contains ww (lower heard) = true ->
      exists w',
        gate_step lower wake_words Idle w = (Ok (Next, CommandWindow), w') /\
        mic_pos w' = S (mic_pos w) /\ running w' = running w /\
        healthy w') /\
  (exists c w',
      gate_step lower wake_words CommandWindow w = (Ok (c, Idle), w') /\
      (c = Break -> running w' = false) /\
      (c = Next -> running w' = running w) /\
      healthy w').
Proof.
  intros Hd. split; [|split; [|split]].
  - intros fuel. apply while_running_step.
  - intros heard Hm Hno.
    destruct (gate_idle_quiet lower wake_words w heard Hd Hm
                (proj2 (check_wake_words_false _ _) Hno))
      as [w' [H1 [H2 [H3 [H4 _]]]]].
    exists w'. auto.
  - intros heard ww Hm Hin Hc.
    destruct (gate_idle_wake lower wake_words w heard Hd Hm)
      as [w' [H1 [H2 [H3 [_ [H4 _]]]]]].
    { apply check_wake_words_true. eauto. }
    exists w'. auto.
  - destruct (gate_window_returns lower wake_words w Hd)
      as [c [w' [H1 [H4 [H2 H3]]]]].
    exists c, w'. auto.
Qed.

Lemma boot_healthy mic tts : healthy (boot mic tts (fun _ => Written)).
Proof. intros i. reflexivity. Qed.

Lemma wake_gate_witness :
  exists w',
    gate_step ascii_lower default_wake_words Idle
      (boot (fun _ => Heard "Hey Claude") (fun _ => None) (fun _ => Written))
    = (Ok (Next, CommandWindow), w').
Proof.
  destruct (wake_gate ascii_lower default_wake_words
              (boot (fun _ => Heard "Hey Claude") (fun _ => None)
                 (fun _ => Written))
              (boot_healthy _ _)) as [_ [_ [Hwake _]]].
  destruct (Hwake "Hey Claude" "hey claude") as [w' [H _]].
  - reflexivity.
  - simpl. auto.
  - reflexivity.
  - exists w'. exact H.
Defined.

(** C4: the code at the input on which it departs from the claim.  A
    listener configured with the wake phrase "Hey Claude" hears the
    transcript "Hey Claude": the transcript contains the phrase, as it is and
    with both in lower case, yet the gate stays in Idle.
    [listen_for_wake_word] lowercases the transcript and tests the phrase as
    it was configured. *)
Lemma wake_gate_capitalised_phrase_ignored :
  let w := boot (fun _ => Heard "Hey Claude") (fun _ => None)
             (fun _ => Written) in
  contains "Hey Claude" "Hey Claude" = true /\
  contains (ascii_lower "Hey Claude") (ascii_lower "Hey Claude") = true /\
  fst (gate_step ascii_lower (init_wake_words (Some ["Hey Claude"])) Idle w)
    = Ok (Next, Idle).
Proof. vm_compute. repeat split. Qed.

(** C8 (as amended): as long as the writes of the session log succeed, when
    the wake phrase has opened a command window and the command heard there
    falls to the stop group of [process_command], no response is spoken for
    it, the loop is left for every amount of remaining fuel after exactly
    these two captures, and the cleanup that [run_continuous] runs after the
    loop sets [end_time], saves the session once more and writes the
    report. *)
Theorem stop_phrase_finalizes (lower : string -> string)
    (wake_words : list string) (w : world) (heard ww command : string)
    (fuel : nat) :
  healthy w ->
  running w = true ->
  mic w (mic_pos w) = Heard heard ->
  In ww wake_words -> contains ww (lower heard) = true ->
  mic w (S (mic_pos w)) = Heard command ->
  truthy command = true ->
  first_group (lower command) groups = Some "STOP_LISTENING" ->
  exists w1 r w2,
    while_running lower wake_words (S fuel) w = (Ok true, w1) /\
    running w1 = false /\
    mic_pos w1 = S (S (mic_pos w)) /\
    (exists said,
        spoken w1 = (spoken w ++ said)%list /\
        incl said ["Yes Commander?"; "Stopping listener. Goodbye Commander!"]) /\
    cleanup w1 = (Ok r, w2) /\
    loop_and_cleanup lower wake_words (S fuel) w = (Ok (Some r), w2) /\
    (exists t, end_time (session_data w2) = Some t) /\
    session_file w2 = Holds (session_data w2) /\
    report_file w2 = Holds r /\
    report_statistics r = statistics (session_data w2) /\
    report_events r = List.length (events (session_data w2)) /\
    mic_pos w2 = S (S (mic_pos w)) /\
    spoken w2 = spoken w1 /\
    running w2 = false.
Proof.
  intros Hd Hrun Hm Hin Hc Hm2 Ht Hstop.
  destruct (gate_idle_wake lower wake_words w heard Hd Hm)
    as [wa [Ha [Hpos [Hra [Hmic [Hda [_ [said1 [Hs1 Hi1]]]]]]]]].
  { apply check_wake_words_true. eauto. }
  assert (Hr : respond command (lower command) = "STOP_LISTENING").
  { rewrite respond_first_group, Hstop. reflexivity. }
  destruct (window_stop lower wake_words wa command Hda)
    as [w1 [Hb [Hrb [Hposb [Hdb [_ [said2 [Hs2 Hi2]]]]]]]]; auto.
  { rewrite Hmic, Hpos. exact Hm2. }
  destruct (cleanup_healthy w1 Hdb)
    as [r [w2 [Hcl [He [Hsf [Hrf [Hrs [Hre [Hmp [Hsp Hrn]]]]]]]]]].
  assert (Hw : while_running lower wake_words (S fuel) w = (Ok true, w1)).
  { rewrite while_running_step, Hrun. unfold pass, bind, ret.
    rewrite Ha, Hb. reflexivity. }
  exists w1, r, w2. repeat split; auto.
  - congruence.
  - exists (said1 ++ said2)%list. split.
    + rewrite Hs2, Hs1, app_assoc. reflexivity.
    + intros x Hx. apply in_app_or in Hx. destruct Hx as [Hx|Hx].
      * apply Hi1 in Hx. simpl in *. tauto.
      * apply Hi2 in Hx. simpl in *. tauto.
  - unfold loop_and_cleanup, bind, ret. rewrite Hw, Hcl. reflexivity.
  - congruence.
  - congruence.
Qed.

Lemma stop_phrase_finalizes_witness :
  exists w1,
    while_running ascii_lower default_wake_words 5
      (set_running true
         (boot (fun n => match n with
                         | 0 => Heard "Hey Claude"
                         | _ => Heard "stop listening"
                         end)
               (fun _ => None) (fun _ => Written)))
    = (Ok true, w1) /\
    running w1 = false /\ mic_pos w1 = 2.
Proof.
  destruct (stop_phrase_finalizes ascii_lower default_wake_words
              (set_running true
                 (boot (fun n => match n with
                                 | 0 => Heard "Hey Claude"
                                 | _ => Heard "stop listening"
                                 end)
                       (fun _ => None) (fun _ => Written)))
              "Hey Claude" "hey claude" "stop listening" 4)
    as [w1 [r [w2 [H1 [H2 [H3 _]]]]]].
  - intros i. reflexivity.
  - reflexivity.
  - reflexivity.
  - simpl. auto.
  - reflexivity.
  - reflexivity.
  - reflexivity.
  - reflexivity.
  - exists w1. auto.
Defined.

(** The claim C8 as stated fails when a write fails.  Here the write of the
    command record, the seventh of the session, is refused:
    [process_command] raises before the stop word is looked at, the handler
    of the loop records the error and the loop goes on.  After the pass that
    heard "stop listening" in its command window the listener is still
    running, no end time is set and no report is written; the next pass opens
    a further command window and answers the command heard there. *)
Lemma stop_phrase_lost_on_failed_write :
  let e := mk_exn OSError "No space left on device" in
  let w := set_running true
             (boot (fun n => match n with
                             | 0 => Heard "hey claude"
                             | 1 => Heard "stop listening"
                             | 2 => Heard "hey claude"
                             | _ => Heard "status"
                             end)
                   (fun _ => None)
                   (fun n => if Nat.eqb n 6 then OpenFailed e else Written)) in
  let w1 := snd (iteration ascii_lower default_wake_words w) in
  let w2 := snd (while_running ascii_lower default_wake_words 2 w) in
  first_group (ascii_lower "stop listening") groups = Some "STOP_LISTENING" /\
  fst (iteration ascii_lower default_wake_words w) = Ok Next /\
  running w1 = true /\ mic_pos w1 = 2 /\
  end_time (session_data w1) = None /\ report_file w1 = Absent /\
  mic_pos w2 = 4 /\
  spoken w2 =
    ["Yes Commander?"; "Yes Commander?";
     "Platform status: Fully operational. Revenue system live, cloud services running 24/7, Trinity engines active. 5 human tasks remaining."].
Proof. vm_compute. repeat split. Qed.

(** C9 (as amended): as long as the writes of the session log succeed, when
    the capture of an open command window times out, the gate is back in
    Idle and the loop goes on; one error event noting the timeout and the
    event of the fallback utterance are recorded (and the error of the
    speech engine when it fails), no command is processed, and the fallback
    utterance is spoken when the speech engine works. *)
Theorem command_window_timeout (lower : string -> string)
    (wake_words : list string) (w : world) (e : exn) :
  healthy w ->
  mic w (mic_pos w) = Fails e ->
  kind e = WaitTimeoutError ->
  exists w',
    gate_step lower wake_words CommandWindow w = (Ok (Next, Idle), w') /\
    (exists new,
        events (session_data w') = (events (session_data w) ++ new)%list /\
        map content new =
          ([("error",
             [("error_type", PyStr "stt");
              ("message", PyStr "Timeout waiting for command");
              ("details", PyNone)]);
            ("tts",
             [("text", PyStr "I didn't hear a command. Try again.");
              ("chars", PyInt 35); ("duration", PyNone);
              ("success", PyBool true)])] ++
           match tts_engine w (tts_pos w) with
           | None => []
           | Some msg =>
               [("error",
                 [("error_type", PyStr "tts"); ("message", PyStr msg);
                  ("details", PyNone)])]
           end)%list) /\
    spoken w' =
      (spoken w ++
       match tts_engine w (tts_pos w) with
       | None => ["I didn't hear a command. Try again."]
       | Some _ => []
       end)%list /\
    commands_processed (statistics (session_data w')) =
      commands_processed (statistics (session_data w)) /\
    session_file w' = Holds (session_data w') /\
    mic_pos w' = S (mic_pos w) /\
    running w' = running w.
Proof. apply window_timeout. Qed.

Lemma command_window_timeout_witness :
  exists w',
    gate_step ascii_lower default_wake_words CommandWindow
      (boot (fun _ => Fails (mk_exn WaitTimeoutError "listening timed out"))
            (fun _ => None) (fun _ => Written))
    = (Ok (Next, Idle), w') /\
    spoken w' = ["I didn't hear a command. Try again."].
Proof.
  destruct (command_window_timeout ascii_lower default_wake_words
              (boot (fun _ => Fails (mk_exn WaitTimeoutError
                                       "listening timed out"))
                    (fun _ => None) (fun _ => Written))
              (mk_exn WaitTimeoutError "listening timed out"))
    as [w' [H1 [_ [H2 _]]]].
  - intros i. reflexivity.
  - reflexivity.
  - reflexivity.
  - exists w'. split; [exact H1 | exact H2].
Defined.

(** The claim C9 as stated fails when a write fails.  Here the write of the
    error record of the timeout is refused: [log_error] raises inside the
    [except] clause of [listen_for_command], the handler of the loop records
    that error and the pass ends in Idle without the fallback utterance, the
    speech engine never being called and no tts event being recorded. *)
Lemma command_window_timeout_silent_on_failed_write :
  let e := mk_exn OSError "No space left on device" in
  let w := boot (fun _ => Fails (mk_exn WaitTimeoutError "listening timed out"))
             (fun _ => None)
             (fun n => if Nat.eqb n 0 then OpenFailed e else Written) in
  let r := gate_step ascii_lower default_wake_words CommandWindow w in
  fst r = Ok (Next, Idle) /\
  spoken (snd r) = [] /\
  tts_pos (snd r) = 0 /\
  map content (events (session_data (snd r))) =
    [("error",
      [("error_type", PyStr "stt");
       ("message", PyStr "Timeout waiting for command");
       ("details", PyNone)]);
     ("error",
      [("error_type", PyStr "main_loop");
       ("message", PyStr "No space left on device");
       ("details", PyNone)])].
Proof. vm_compute. repeat split. Qed.

(** C10: the response of [process_command] is that of the first group, in
    the order status, deploy, payment, cloud, cockpit, help, thank, stop,
    one of whose keywords occurs in the lowercased command; hence a command
    in which a keyword of one of the first seven groups occurs gets that
    group's response even when it holds a stop word, and the loop goes
    on. *)
Theorem process_command_group_order (lower : string -> string)
    (wake_words : list string) (command : string) :
  (forall command_lower,
      respond command command_lower =
      match first_group command_lower groups with
      | Some response => response
      | None =>
          "Command received: " ++ command ++
          ". I'm still learning new commands. Try asking about status, deploy, payment, cloud, or cockpit."
      end) /\
  (forall w,
      truthy command = true ->
      disk w (disk_pos w) = Written ->
      exists w',
        process_command lower (Some command) w =
          (Ok match first_group (lower command) groups with
              | Some response => response
              | None =>
                  "Command received: " ++ command ++
                  ". I'm still learning new commands. Try asking about status, deploy, payment, cloud, or cockpit."
              end, w')) /\
  (forall w kws response keyword,
      healthy w ->
      mic w (mic_pos w) = Heard command ->
      truthy command = true ->
      In (kws, response) (firstn 7 groups) -> In keyword kws ->
      contains keyword (lower command) = true ->
      respond command (lower command) <> "STOP_LISTENING" /\
      exists w',
        gate_step lower wake_words CommandWindow w = (Ok (Next, Idle), w') /\
        running w' = running w).
Proof.
  split; [|split].
  - intros cl. apply respond_first_group.
  - intros w Ht Hd.
    destruct (process_command_responds lower w command Ht Hd) as [w' [H _]].
    exists w'. rewrite <- respond_first_group. exact H.
  - intros w kws response keyword Hd Hm Ht Hg Hk Hc.
    assert (Hr : respond command (lower command) <> "STOP_LISTENING").
    { intros Hr. rewrite respond_first_group in Hr.
      destruct (first_group (lower command) groups) as [r|] eqn:E.
      - subst r.
        rewrite (stop_is_last_group _ E kws response keyword Hg Hk) in Hc.
        discriminate.
      - discriminate. }
    split; [exact Hr|].
    destruct (window_response lower wake_words w command Hd Hm Ht Hr)
      as [w' [H1 [H2 _]]].
    exists w'. auto.
Qed.

Lemma process_command_group_order_witness :
  respond "stop the deploy" (ascii_lower "stop the deploy") =
    "Deployment system ready. Use AUTO DEPLOY SYSTEM script to deploy changes with one command." /\
  exists w',
    gate_step ascii_lower default_wake_words CommandWindow
      (set_running true
         (boot (fun _ => Heard "stop the deploy") (fun _ => None)
               (fun _ => Written)))
    = (Ok (Next, Idle), w') /\
    running w' = true.
Proof.
  split; [reflexivity|].
  destruct (process_command_group_order ascii_lower default_wake_words
              "stop the deploy") as [_ [_ H]].
  destruct (H (set_running true
                 (boot (fun _ => Heard "stop the deploy") (fun _ => None)
                       (fun _ => Written)))
              ["deploy"]
              "Deployment system ready. Use AUTO DEPLOY SYSTEM script to deploy changes with one command."
              "deploy") as [_ [w' [H1 H2]]].
  - intros i. reflexivity.
  - reflexivity.
  - reflexivity.
  - simpl. auto.
  - simpl. auto.
  - reflexivity.
  - exists w'. split; [exact H1 | exact H2].
Defined.

(** *** Replay *)

Lemma replay_snoc evs e :
  replay (evs ++ [e]) =
  let s := replay evs in
  mk_stats
    (tts_events s + if has_type "tts" e then 1 else 0)
    (stt_events s + if has_type "stt" e then 1 else 0)
    (commands_processed s + if has_type "command" e then 1 else 0)
    (errors s + if has_type "error" e then 1 else 0)
    (total_chars_spoken s + if has_type "tts" e then text_chars e else 0)
    (total_chars_heard s + if has_type "stt" e then text_chars e else 0)
    0.
Proof.
  unfold replay. cbn [tts_events stt_events commands_processed errors
                      total_chars_spoken total_chars_heard].
  rewrite !filter_app, !map_app, !length_app, !list_sum_app.
  cbn [filter].
  destruct (has_type "tts" e), (has_type "stt" e), (has_type "command" e),
           (has_type "error" e); cbn; f_equal; lia.
Qed.

Lemma replay_fold evs :
  fold_left update evs (mk_stats 0 0 0 0 0 0 0) = replay evs.
Proof.
  induction evs as [|e evs IH] using rev_ind; [reflexivity|].
  rewrite fold_left_app, replay_snoc, IH. reflexivity.
Qed.

Lemma log_event_replay event_type data w :
  let w' := snd (log_event event_type data w) in
  events (session_data w') =
    (events (session_data w) ++ [mk_event (clock w) event_type data])%list /\
  (statistics (session_data w) = replay (events (session_data w)) ->
   statistics (session_data w') = replay (events (session_data w'))).
Proof.
  open_world w. norm.
  assert (Hgo : forall ty,
             has_type ty (mk_event clk event_type data) =
             String.eqb event_type ty) by reflexivity.
  assert (Htc : text_chars (mk_event clk event_type data) =
                match Py.len (get data "text" (PyStr "")) with
                | Some n => n
                | None => 0
                end) by reflexivity.
  destruct (String.eqb event_type "tts") eqn:E1;
    [|destruct (String.eqb event_type "stt") eqn:E2;
      [|destruct (String.eqb event_type "command") eqn:E3;
        [|destruct (String.eqb event_type "error") eqn:E4]]];
    try (apply String.eqb_eq in E1; subst event_type);
    try (apply String.eqb_eq in E2; subst event_type);
    try (apply String.eqb_eq in E3; subst event_type);
    try (apply String.eqb_eq in E4; subst event_type);
    try (destruct (Py.len (get data "text" (PyStr ""))) as [n|] eqn:El);
    cbv beta iota; try (destruct (disk dp); cbv beta iota);
    (split; [reflexivity|]); intros H;
    assert (H7 : s7 = 0) by exact (f_equal avg_response_time H);
    rewrite replay_snoc, <- H, !Hgo, ?Htc, ?E1, ?E2, ?E3, ?E4;
    cbn; f_equal; lia.
Qed.

Lemma record_all_replay inputs w :
  let w' := record_all inputs w in
  map content (events (session_data w')) =
    (map content (events (session_data w)) ++ inputs)%list /\
  (statistics (session_data w) = replay (events (session_data w)) ->
   statistics (session_data w') = replay (events (session_data w'))).
Proof.
  revert w. induction inputs as [|[ty d] inputs IH]; intros w;
    cbn [record_all].
  - cbv zeta. rewrite app_nil_r. auto.
  - destruct (IH (snd (log_event ty d w))) as [IH1 IH2].
    destruct (log_event_replay ty d w) as [H1 H2].
    cbv zeta in *. split.
    + rewrite IH1, H1, map_app, <- app_assoc. reflexivity.
    + intros H. apply IH2, H2, H.
Qed.

Lemma record_all_app inputs1 inputs2 w :
  record_all (inputs1 ++ inputs2) w = record_all inputs2 (record_all inputs1 w).
Proof.
  revert w. induction inputs1 as [|[ty d] inputs1 IH]; intros w;
    cbn [record_all app]; [reflexivity | apply IH].
Qed.

Lemma log_event_disk event_type data w :
  disk (snd (log_event event_type data w)) = disk w.
Proof.
  open_world w. norm.
  destruct (String.eqb event_type "tts");
    [|destruct (String.eqb event_type "stt");
      [|destruct (String.eqb event_type "command");
        [|destruct (String.eqb event_type "error")]]];
    try (destruct (Py.len (get data "text" (PyStr ""))) as [n|]);
    cbv beta iota; try (destruct (disk dp)); reflexivity.
Qed.

Lemma record_all_disk inputs w : disk (record_all inputs w) = disk w.
Proof.
  revert w. induction inputs as [|[ty d] inputs IH]; intros w;
    cbn [record_all]; [reflexivity|]. now rewrite IH, log_event_disk.
Qed.

(** A call of [log_event] on an event with a sized text: what it returns and
    what it leaves on disk, by the outcome of the write. *)
Lemma log_event_write event_type data w :
  sized_text (event_type, data) ->
  let w' := snd (log_event event_type data w) in
  disk_pos w' = S (disk_pos w) /\
  match disk w (disk_pos w) with
  | Written =>
      fst (log_event event_type data w) = Ok tt /\
      session_file w' = Holds (session_data w')
  | OpenFailed e =>
      fst (log_event event_type data w) = Raise e /\
      session_file w' = session_file w
  | WriteFailed e =>
      fst (log_event event_type data w) = Raise e /\
      session_file w' = Torn
  end.
Proof.
  unfold sized_text. cbn [fst snd]. intros Hs. open_world w. norm.
  destruct (String.eqb event_type "tts");
    [|destruct (String.eqb event_type "stt");
      [|destruct (String.eqb event_type "command");
        [|destruct (String.eqb event_type "error")]]];
    try (destruct (Py.len (get data "text" (PyStr ""))) as [n|];
         [|exfalso; now apply Hs]);
    cbv beta iota; destruct (disk dp); cbv beta iota; auto.
Qed.

(** The in-memory session after [log_event] does not depend on how the
    write went. *)
Lemma log_event_memory event_type data w disk' :
  session_data (snd (log_event event_type data w)) =
  session_data (snd (log_event event_type data (set_disk disk' w))).
Proof.
  open_world w. norm.
  destruct (String.eqb event_type "tts");
    [|destruct (String.eqb event_type "stt");
      [|destruct (String.eqb event_type "command");
        [|destruct (String.eqb event_type "error")]]];
    try (destruct (Py.len (get data "text" (PyStr ""))) as [n|]);
    cbv beta iota; try (destruct (disk dp)); try (destruct (disk' dp));
    reflexivity.
Qed.

(** C5: in a fresh session, after any sequence of K calls of [log_event]
    the event list holds exactly those K events in order and the statistics
    equal the fold of the per-event updates over the event list, which is
    their replay by counting; and when the write of the last call succeeds,
    the session file holds exactly that in-memory session. *)
Theorem statistics_replay (w0 : world) (inputs : list (string * dict)) :
  let w := snd (init_analytics w0) in
  let w' := record_all inputs w in
  map content (events (session_data w')) = inputs /\
  statistics (session_data w') =
    fold_left update (events (session_data w')) (mk_stats 0 0 0 0 0 0 0) /\
  statistics (session_data w') = replay (events (session_data w')) /\
  (forall recorded event_type data,
      inputs = (recorded ++ [(event_type, data)])%list ->
      sized_text (event_type, data) ->
      disk w0 (pred (disk_pos w')) = Written ->
      session_file w' = Holds (session_data w')).
Proof.
  intros w w'.
  destruct (record_all_replay inputs w) as [He Hs]. fold w' in He, Hs.
  split; [exact He|].
  split; [rewrite replay_fold; apply Hs; reflexivity|].
  split; [apply Hs; reflexivity|].
  intros recorded ty d Hin Hsz Hw. subst w'. rewrite Hin in *.
  rewrite record_all_app in *. cbn [record_all] in *.
  destruct (log_event_write ty d (record_all recorded w) Hsz) as [Hp Hm].
  rewrite Hp in Hw. cbn [pred] in Hw.
  rewrite record_all_disk in Hm.
  replace (disk w) with (disk w0) in Hm by reflexivity.
  rewrite Hw in Hm. apply Hm.
Qed.

Lemma statistics_replay_witness :
  let inputs := [("tts", [("text", PyStr "Yes Commander?")]);
                 ("stt", [("text", PyStr "status")])] in
  let w' := record_all inputs
              (boot (fun _ => Heard "status") (fun _ => None)
                    (fun _ => Written)) in
  session_file w' = Holds (session_data w') /\
  statistics (session_data w') = mk_stats 1 1 0 0 14 6 0.
Proof.
  intros inputs w'.
  destruct (statistics_replay
              (mk_world (fun _ => Heard "status") 0 (fun _ => None) 0
                 (fun _ => Written) 0 0 (new_session_data 0 0)
                 Absent Absent Absent false 0 [])
              inputs) as [_ [_ [_ H]]].
  split.
  - apply (H [("tts", [("text", PyStr "Yes Commander?")])]
             "stt" [("text", PyStr "status")]).
    + reflexivity.
    + intros _. discriminate.
    + reflexivity.
  - reflexivity.
Defined.

(** A pass of the loop raises only out of its own handler, whose write of
    the error record has then failed. *)
Lemma iteration_raises lower wake_words w e w' :
  iteration lower wake_words w = (Raise e, w') ->
  disk w' (pred (disk_pos w')) <> Written.
Proof.
  unfold iteration, try_except.
  destruct (loop_body lower wake_words w) as [[c|e0] w1]; [discriminate|].
  open_world w1. norm.
  destruct e0 as [[] msg]; norm; try discriminate;
    (destruct (disk dp) eqn:Ew; norm; intros H; inversion H; subst;
     norm; cbn [pred]; rewrite Ew; discriminate).
Qed.

(** C6 (as amended): when the write of a record call fails, [log_event]
    raises the error of the write to its caller; the in-memory session then
    holds the new event and statistics exactly as after a successful write,
    and stays equal to the replay of its events; a failed open leaves the
    session file as it was.  One pass of the listening loop ends with an
    exception only when the last write it tried, the error record of the
    loop's own handler, failed as well. *)
Theorem persistence_failure (event_type : string) (data : dict) (w : world)
    (e : exn) :
  sized_text (event_type, data) ->
  disk w (disk_pos w) = OpenFailed e \/ disk w (disk_pos w) = WriteFailed e ->
  let w' := snd (log_event event_type data w) in
  fst (log_event event_type data w) = Raise e /\
  session_data w' =
    session_data
      (snd (log_event event_type data (set_disk (fun _ => Written) w))) /\
  events (session_data w') =
    (events (session_data w) ++ [mk_event (clock w) event_type data])%list /\
  (statistics (session_data w) = replay (events (session_data w)) ->
   statistics (session_data w') = replay (events (session_data w'))) /\
  (disk w (disk_pos w) = OpenFailed e -> session_file w' = session_file w) /\
  (forall lower wake_words wl e' wl',
      iteration lower wake_words wl = (Raise e', wl') ->
      disk wl' (pred (disk_pos wl')) <> Written).
Proof.
  intros Hs Hd w'.
  destruct (log_event_write event_type data w Hs) as [_ Hw].
  destruct (log_event_replay event_type data w) as [He Hr].
  fold w' in Hw, He, Hr.
  split; [|split; [|split; [|split; [|split]]]].
  - destruct Hd as [Hd|Hd]; rewrite Hd in Hw; apply Hw.
  - apply log_event_memory.
  - exact He.
  - exact Hr.
  - intros Hd'. rewrite Hd' in Hw. apply Hw.
  - apply iteration_raises.
Qed.

Lemma persistence_failure_witness :
  let e := mk_exn OSError "No space left on device" in
  let w := boot (fun _ => Heard "status") (fun _ => None)
             (fun _ => WriteFailed e) in
  fst (log_event "stt" [("text", PyStr "status")] w) = Raise e /\
  statistics (session_data (snd (log_event "stt" [("text", PyStr "status")] w)))
    = mk_stats 0 1 0 0 0 6 0.
Proof.
  intros e w.
  destruct (persistence_failure "stt" [("text", PyStr "status")] w e)
    as [H _].
  - intros _. discriminate.
  - right. reflexivity.
  - split; [exact H | reflexivity].
Defined.

(** The claim C6 as stated fails: with a disk that refuses every write, the
    failure of the first record call in the loop, and of the error records
    of the handlers after it, ends the loop with the exception. *)
Lemma persistence_failure_ends_loop :
  let e := mk_exn OSError "No space left on device" in
  let w := set_running true
             (boot (fun _ => Heard "hello") (fun _ => None)
                   (fun _ => OpenFailed e)) in
  fst (iteration ascii_lower default_wake_words w) = Raise e /\
  fst (while_running ascii_lower default_wake_words 5 w) = Raise e /\
  fst (run_continuous ascii_lower default_wake_words 5 w) = Raise e.
Proof. vm_compute. repeat split. Qed.

End SessionProperties.

(* --------------------------------------------------------------------- *)
(** ** Further properties of the router *)
(* --------------------------------------------------------------------- *)

Section RouterExtras.
Import PyStr Router Responses.

Lemma map_name_agent_of (l : list (string * agent_config)) :
  map name (map agent_of l) = map fst l.
Proof. rewrite map_map. reflexivity. Qed.

Lemma NoDup_filter {A} (f : A -> bool) (l : list A) :
  NoDup l -> NoDup (filter f l).
Proof.
  induction 1 as [|x l Hx Hl IH]; simpl; [constructor|].
  destruct (f x); [|exact IH]. constructor; [|exact IH].
  intros H. apply Hx. now apply filter_In in H.
Qed.

Lemma map_fst_filter_NoDup {A B} (f : A * B -> bool) (l : list (A * B)) :
  NoDup (map fst l) -> NoDup (map fst (filter f l)).
Proof.
  induction l as [|x l IH]; simpl; intros H; [constructor|].
  inversion H as [|? ? Hx Hl]; subst.
  destruct (f x); simpl; [|now apply IH].
  constructor; [|now apply IH].
  intros Hin. apply Hx. apply in_map_iff in Hin.
  destruct Hin as [y [Hy Hf]]. apply filter_In in Hf.
  apply in_map_iff. exists y. tauto.
Qed.

Lemma Some_eq {A} (a b : A) : Some a = Some b -> a = b.
Proof. intros H. now injection H. Qed.

Lemma routed_are_registered lower msg agents a :
  route_to_agents lower msg = Some agents -> In a agents ->
  exists entry, In entry AGENTS /\ a = agent_of entry.
Proof.
  intros Hr Ha.
  destruct (route_to_agents_cases lower msg) as [[_ H] | [_ H]];
    rewrite H in Hr; apply Some_eq in Hr; subst agents.
  - destruct Ha as [<-|[]].
    exists ("General Assistant",
            mk_config ["help"; "what"; "how"; "why"; "when"; "where"]
              1 (ESC ++ "[97m")).
    split; [simpl; tauto | reflexivity].
  - apply (Permutation_in _ (Permutation_sym (sort_desc_perm _))) in Ha.
    rewrite scan_agents_filter, app_nil_l in Ha.
    apply in_map_iff in Ha. destruct Ha as [entry [<- Hf]].
    apply filter_In in Hf. exists entry. tauto.
Qed.


Lemma registered_priority_10 entry :
  In entry AGENTS -> (10 <= priority (snd entry))%Z ->
  agent_of entry = mk_agent "Security Bot" 10 (ESC ++ "[91m").
Proof.
  intros Hin Hp. simpl in Hin.
  repeat (destruct Hin as [<-|Hin]; [simpl in Hp; try lia; reflexivity|]).
  destruct Hin.
Qed.

Lemma registered_priority_1 entry :
  In entry AGENTS ->
  (1 <= priority (snd entry))%Z /\
  (priority (snd entry) = 1%Z ->
   agent_of entry = mk_agent "General Assistant" 1 (ESC ++ "[97m")).
Proof.
  intros Hin. simpl in Hin.
  repeat (destruct Hin as [<-|Hin];
          [simpl; split; [lia | intros; try lia; reflexivity]|]).
  destruct Hin.
Qed.

Lemma StronglySorted_last {A} (R : A -> A -> Prop) l x :
  StronglySorted R l -> In x l -> (forall y, In y l -> ~ R x y) ->
  exists front, l = (front ++ [x])%list.
Proof.
  induction 1 as [|a l Hl IH Ha]; intros Hin Hno; [destruct Hin|].
  destruct l as [|b l'].
  - destruct Hin as [->|[]]. now exists [].
  - destruct Hin as [->|Hin].
    + exfalso. apply (Hno b); [simpl; auto|].
      inversion Ha; assumption.
    + destruct IH as [front Hf]; [exact Hin | |].
      * intros y Hy. apply Hno. now right.
      * exists (a :: front). now rewrite Hf.
Qed.

Lemma route_sorted lower msg agents :
  route_to_agents lower msg = Some agents ->
  StronglySorted routed_before agents.
Proof.
  intros Hr.
  destruct (route_to_agents_cases lower msg) as [[_ H] | [_ H]];
    rewrite H in Hr; apply Some_eq in Hr; subst agents.
  - repeat constructor.
  - apply sort_desc_sorted, collected_registration_order.
Qed.





End RouterExtras.

(* --------------------------------------------------------------------- *)
(** ** The choice of the microphone *)
(* --------------------------------------------------------------------- *)

Section MicrophoneExtras.
Import PyStr Py Microphones.

Lemma headset_loop_first lower i mic_list :
  headset_loop lower i mic_list =
  first_index (shokz_headset lower) i mic_list.
Proof.
  revert i. induction mic_list as [|name rest IH]; intros i; [reflexivity|].
  cbn [headset_loop first_index]. unfold shokz_headset at 1.
  rewrite IH.
  destruct (contains "shokz" (lower name)),
           (contains "headset" (lower name)),
           (contains "input" (lower name)); reflexivity.
Qed.

Lemma input_loop_first lower i mic_list :
  input_loop lower i mic_list = first_index (shokz_input lower) i mic_list.
Proof.
  revert i. induction mic_list as [|name rest IH]; intros i; [reflexivity|].
  cbn [input_loop first_index]. unfold shokz_input at 1. now rewrite IH.
Qed.

Lemma first_index_some p i names k :
  first_index p i names = Some k ->
  exists j name,
    k = i + j /\ nth_error names j = Some name /\ p name = true /\
    forall j' name', j' < j -> nth_error names j' = Some name' ->
                     p name' = false.
Proof.
  revert i. induction names as [|n rest IH]; intros i H; [discriminate|].
  cbn [first_index] in H. destruct (p n) eqn:E.
  - injection H as <-. exists 0, n.
    split; [lia|]. split; [reflexivity|]. split; [exact E|].
    intros j' name' Hj. lia.
  - destruct (IH _ H) as [j [name [Hk [Hn [Hp Hmin]]]]].
    exists (S j), name.
    split; [lia|]. split; [exact Hn|]. split; [exact Hp|].
    intros [|j'] name' Hj Hn'.
    + injection Hn' as <-. exact E.
    + apply (Hmin j'); [lia | exact Hn'].
Qed.

Lemma first_index_none p i names :
  first_index p i names = None <->
  forall name, In name names -> p name = false.
Proof.
  revert i. induction names as [|n rest IH]; intros i; cbn [first_index].
  - split; [intros _ name [] | reflexivity].
  - destruct (p n) eqn:E.
    + split; [discriminate|]. intros H. rewrite (H n) in E; [discriminate|].
      now left.
    + rewrite IH. split.
      * intros H name [<-|Hin]; auto.
      * intros H name Hin. apply H. now right.
Qed.

Lemma first_index_hit p i names j name :
  nth_error names j = Some name -> p name = true ->
  exists k, first_index p i names = Some k /\ k <= i + j.
Proof.
  intros Hn Hp. destruct (first_index p i names) as [k|] eqn:E.
  - exists k. split; [reflexivity|].
    destruct (first_index_some _ _ _ _ E) as [j0 [n0 [-> [_ [_ Hmin]]]]].
    destruct (Nat.le_gt_cases j0 j) as [Hle|Hgt]; [lia|].
    rewrite (Hmin j name Hgt Hn) in Hp. discriminate.
  - apply first_index_none with (name := name) in E.
    + congruence.
    + eapply nth_error_In; eauto.
Qed.



End MicrophoneExtras.

(* --------------------------------------------------------------------- *)
(** ** Further properties of the listener and the logger *)
(* --------------------------------------------------------------------- *)

Section SessionExtras.
Import PyStr Py Data Sys Analytics Listener Gate Replay Commands Invariants.

Arguments respond : simpl never.

(** Unfolds the programs and the state they act on, so that a run on a
    world given by its fields computes. *)
Ltac norm :=
  cbv beta iota zeta delta
    [gate_step pass iteration loop_body loop_handler command_window
     acknowledge process_command listen_for_command listen_for_wake_word
     speak cleanup startup loop_and_cleanup run_continuous
     capture say sleep try_except command_given
     log_tts log_stt log_command log_error log_system_event
     log_event _print_event _append_transcript _save py_len modify_statistics
     modify_session_data close_session generate_report
     open_write now modify gets bind ret raise is_Exception healthy
     set_tts_events set_stt_events set_commands_processed set_errors
     set_total_chars_spoken set_total_chars_heard
     set_events set_statistics
     set_last_updated set_end_time
     set_mic_pos set_tts_pos set_disk set_disk_pos
     set_clock set_session_data set_session_file set_transcript_file
     set_report_file set_running set_wake_detected_count set_spoken
     tts_events stt_events commands_processed errors total_chars_spoken
     total_chars_heard avg_response_time
     session_id start_time events statistics last_updated end_time
     mic mic_pos tts_engine tts_pos disk disk_pos clock session_data
     session_file transcript_file report_file running wake_detected_count
     spoken kind str fst snd] in *;
  cbn [String.eqb Ascii.eqb Bool.eqb len get String.length List.length
       String.append truthy negb] in *.

Ltac open_world w :=
  destruct w as [mic mp tts tp disk dp clk
                   [sid st evs [s1 s2 s3 s4 s5 s6 s7] lu et]
                   sf tf rf run cnt sp].

Ltac go H := norm; repeat (progress (rewrite ?H); norm).

(** The cases of [log_event]: the type of the event, the length of its
    text, the outcome of the write. *)
Ltac log_event_cases event_type data disk dp :=
  destruct (String.eqb event_type "tts");
    [|destruct (String.eqb event_type "stt");
      [|destruct (String.eqb event_type "command");
        [|destruct (String.eqb event_type "error")]]];
  try (destruct (Py.len (get data "text" (PyStr ""))) as [?n|]);
  cbv beta iota; try (destruct (disk dp)); cbv beta iota.

(** *** How the programs leave the session *)

Lemma log_event_frame event_type data w :
  let w' := snd (log_event event_type data w) in
  spoken w' = spoken w /\
  (session_file w' = session_file w \/
   session_file w' = Holds (session_data w') \/
   session_file w' = Torn).
Proof.
  open_world w. norm. log_event_cases event_type data disk dp; auto.
Qed.

Lemma append_transcript_frame line w :
  let w' := snd (_append_transcript line w) in
  session_data w' = session_data w /\ session_file w' = session_file w /\
  spoken w' = spoken w.
Proof. open_world w. norm. destruct (disk dp); norm; auto. Qed.

Lemma capture_frame timeout limit w :
  let w' := snd (capture timeout limit w) in
  session_data w' = session_data w /\ session_file w' = session_file w /\
  spoken w' = spoken w.
Proof. open_world w. norm. destruct (mic mp); norm; auto. Qed.

Lemma say_frame line w :
  let w' := snd (say line w) in
  session_data w' = session_data w /\ session_file w' = session_file w /\
  (spoken w' = spoken w \/ spoken w' = (spoken w ++ [line])%list).
Proof. open_world w. norm. destruct (tts tp); norm; auto. Qed.

Lemma close_session_frame w :
  let w' := snd (close_session w) in
  events (session_data w') = events (session_data w) /\
  statistics (session_data w') = statistics (session_data w) /\
  spoken w' = spoken w /\
  (session_file w' = session_file w \/
   session_file w' = Holds (session_data w') \/
   session_file w' = Torn).
Proof.
  open_world w. norm.
  destruct (disk dp); norm; [destruct (disk (S dp)); norm| |];
    repeat split; auto.
Qed.

(** *** Programs that keep a property of the world *)

Lemma keeps_ret P {A} (a : A) : keeps P (ret a).
Proof. intros w H. exact H. Qed.

Lemma keeps_raise P {A} e : keeps P (@raise A e).
Proof. intros w H. exact H. Qed.

Lemma keeps_gets P {A} (f : world -> A) : keeps P (gets f).
Proof. intros w H. exact H. Qed.

Lemma keeps_bind P {A B} (m : M A) (f : A -> M B) :
  keeps P m -> (forall a, keeps P (f a)) -> keeps P (bind m f).
Proof.
  intros Hm Hf w H. unfold bind. specialize (Hm w H).
  destruct (m w) as [[a|e] w1]; cbn [snd] in *; [|exact Hm].
  apply Hf, Hm.
Qed.

Lemma keeps_try_except P {A} (m : M A) (handler : exn -> M A) :
  keeps P m -> (forall e, keeps P (handler e)) ->
  keeps P (try_except m handler).
Proof.
  intros Hm Hh w H. unfold try_except. specialize (Hm w H).
  destruct (m w) as [[a|e] w1]; cbn [snd] in *; [exact Hm|].
  apply Hh, Hm.
Qed.

Section Keeping.
Variable P : world -> Prop.
Variable lower : string -> string.
Variable wake_words : list string.

(** [P] looks only at the session document, the session file and what has
    been said, and the three programs that change them keep it. *)
Hypothesis P_view :
  forall w w',
    session_data w' = session_data w -> session_file w' = session_file w ->
    spoken w' = spoken w -> P w -> P w'.
Hypothesis P_log_event : forall event_type data,
  keeps P (log_event event_type data).
Hypothesis P_speak : forall line, keeps P (speak line).
Hypothesis P_close_session : keeps P close_session.

Lemma keeps_append_transcript line : keeps P (_append_transcript line).
Proof.
  intros w H. destruct (append_transcript_frame line w) as [H1 [H2 H3]].
  eapply P_view; eauto.
Qed.

Lemma keeps_capture timeout limit : keeps P (capture timeout limit).
Proof.
  intros w H. destruct (capture_frame timeout limit w) as [H1 [H2 H3]].
  eapply P_view; eauto.
Qed.

Lemma keeps_modify_listener (f : world -> world) :
  (forall w, session_data (f w) = session_data w /\
             session_file (f w) = session_file w /\
             spoken (f w) = spoken w) ->
  keeps P (modify f).
Proof.
  intros Hf w H. destruct (Hf w) as [H1 [H2 H3]]. eapply P_view; eauto.
Qed.

Lemma keeps_log_stt text c d s : keeps P (log_stt text c d s).
Proof.
  unfold log_stt. apply keeps_bind; [apply P_log_event|]. intros _.
  destruct text as [t|]; [|apply keeps_ret].
  destruct (truthy t); [apply keeps_append_transcript | apply keeps_ret].
Qed.

Lemma keeps_log_error t m d : keeps P (log_error t m d).
Proof. apply P_log_event. Qed.

Lemma keeps_log_command c r t : keeps P (log_command c r t).
Proof. apply P_log_event. Qed.

Lemma keeps_log_system_event n d : keeps P (log_system_event n d).
Proof. apply P_log_event. Qed.

Lemma keeps_listen_for_wake_word timeout :
  keeps P (listen_for_wake_word lower wake_words timeout).
Proof.
  unfold listen_for_wake_word. apply keeps_try_except.
  - apply keeps_bind; [apply keeps_capture|]. intros heard.
    apply keeps_bind; [apply keeps_log_stt|]. intros _. apply keeps_ret.
  - intros e. destruct (kind e);
      first [ apply keeps_ret | apply keeps_raise
            | apply keeps_bind;
              [apply keeps_log_error | intros _; apply keeps_ret] ].
Qed.

Lemma keeps_listen_for_command timeout :
  keeps P (listen_for_command timeout).
Proof.
  unfold listen_for_command. apply keeps_try_except.
  - apply keeps_bind; [apply keeps_capture|]. intros heard.
    apply keeps_bind; [apply keeps_log_stt|]. intros _. apply keeps_ret.
  - intros e. destruct (kind e);
      first [ apply keeps_raise
            | apply keeps_bind;
              [apply keeps_log_error | intros _; apply keeps_ret] ].
Qed.

Lemma keeps_process_command command :
  keeps P (process_command lower command).
Proof.
  unfold process_command. destruct command as [c|]; [|apply keeps_ret].
  destruct (truthy c); [|apply keeps_ret].
  apply keeps_bind; [apply keeps_log_command | intros _; apply keeps_ret].
Qed.

Lemma keeps_set_running b : keeps P (modify (set_running b)).
Proof. apply keeps_modify_listener. intros w. repeat split. Qed.

Lemma keeps_command_window : keeps P (command_window lower).
Proof.
  unfold command_window, sleep.
  apply keeps_bind; [apply keeps_listen_for_command|]. intros command.
  destruct (command_given command).
  - apply keeps_bind; [apply keeps_process_command|]. intros response.
    destruct (String.eqb response "STOP_LISTENING").
    + apply keeps_bind; [apply P_speak|]. intros _.
      apply keeps_bind; [apply keeps_set_running|]. intros _. apply keeps_ret.
    + apply keeps_bind; [apply P_speak|]. intros _.
      apply keeps_bind; [apply keeps_ret|]. intros _. apply keeps_ret.
  - apply keeps_bind; [apply P_speak|]. intros _.
    apply keeps_bind; [apply keeps_ret|]. intros _. apply keeps_ret.
Qed.

Lemma keeps_acknowledge : keeps P acknowledge.
Proof.
  unfold acknowledge. apply keeps_bind; [|intros _; apply P_speak].
  apply keeps_modify_listener. intros w. repeat split.
Qed.

Lemma keeps_iteration : keeps P (iteration lower wake_words).
Proof.
  unfold iteration, loop_body, loop_handler, sleep.
  apply keeps_try_except.
  - apply keeps_bind; [apply keeps_listen_for_wake_word|]. intros detected.
    destruct detected.
    + apply keeps_bind; [apply keeps_acknowledge|]. intros _.
      apply keeps_command_window.
    + apply keeps_bind; [apply keeps_ret|]. intros _. apply keeps_ret.
  - intros e. destruct (is_Exception e).
    + apply keeps_bind; [apply keeps_log_error|]. intros _.
      apply keeps_bind; [apply keeps_ret|]. intros _. apply keeps_ret.
    + apply keeps_bind; [apply keeps_set_running|]. intros _.
      apply keeps_ret.
Qed.

Lemma keeps_while_running fuel :
  keeps P (while_running lower wake_words fuel).
Proof.
  induction fuel as [|fuel IH]; cbn [while_running].
  - apply keeps_bind; [apply keeps_gets | intros r; apply keeps_ret].
  - apply keeps_bind; [apply keeps_gets|]. intros r.
    destruct r; [|apply keeps_ret].
    apply keeps_bind; [apply keeps_iteration|]. intros c.
    destruct c; [exact IH | apply keeps_ret].
Qed.

Lemma keeps_cleanup : keeps P cleanup.
Proof.
  unfold cleanup. apply keeps_bind; [apply keeps_gets|]. intros n.
  apply keeps_bind; [apply keeps_log_system_event|]. intros _.
  apply P_close_session.
Qed.

Lemma keeps_run_continuous fuel :
  keeps P (run_continuous lower wake_words fuel).
Proof.
  unfold run_continuous, startup, loop_and_cleanup.
  apply keeps_bind.
  - apply keeps_bind; [apply keeps_set_running|]. intros _.
    apply keeps_bind; [apply keeps_log_system_event|]. intros _.
    apply keeps_bind; [apply P_speak|]. intros _.
    apply keeps_modify_listener. intros w. repeat split.
  - intros _. apply keeps_bind; [apply keeps_while_running|]. intros left.
    destruct left; [|apply keeps_ret].
    apply keeps_bind; [apply keeps_cleanup | intros r; apply keeps_ret].
Qed.

End Keeping.

(** [speak] keeps what [log_event], the transcript and the speech engine
    keep. *)
Lemma keeps_speak_of_say P :
  (forall w w',
      session_data w' = session_data w -> session_file w' = session_file w ->
      spoken w' = spoken w -> P w -> P w') ->
  (forall event_type data, keeps P (log_event event_type data)) ->
  (forall line, keeps P (say line)) ->
  forall line, keeps P (speak line).
Proof.
  intros Hv Hl Hs line. unfold speak, log_tts. apply keeps_try_except.
  - apply keeps_bind; [|intros _; apply Hs].
    apply keeps_bind; [apply Hl|]. intros _.
    apply keeps_append_transcript, Hv.
  - intros e. destruct (is_Exception e); [apply Hl | apply keeps_raise].
Qed.

(** *** The session stays crash-safe *)

Lemma crash_safe_step w w' :
  crash_safe w ->
  (exists later,
      events (session_data w') = (events (session_data w) ++ later)%list) ->
  consistent (session_data w') ->
  (session_file w' = session_file w \/
   session_file w' = Holds (session_data w') \/
   session_file w' = Torn) ->
  crash_safe w'.
Proof.
  intros [Hc Hf] [later Hl] Hc' [Hs | [Hs | Hs]]; split; auto; rewrite Hs.
  - destruct (session_file w) as [|sd|]; auto.
    destruct Hf as [Hsd [l Hp]]. split; [exact Hsd|].
    exists (l ++ later)%list. rewrite Hl, Hp, app_assoc. reflexivity.
  - split; [exact Hc'|]. exists []. now rewrite app_nil_r.
  - exact I.
Qed.

Lemma crash_safe_view w w' :
  session_data w' = session_data w -> session_file w' = session_file w ->
  spoken w' = spoken w -> crash_safe w -> crash_safe w'.
Proof. unfold crash_safe. intros -> -> _ H. exact H. Qed.

Lemma crash_safe_log_event event_type data :
  keeps crash_safe (log_event event_type data).
Proof.
  intros w H.
  destruct (log_event_replay event_type data w) as [He Hc].
  destruct (log_event_frame event_type data w) as [_ Hf].
  apply (crash_safe_step w); auto.
  - eexists. exact He.
  - apply Hc, H.
Qed.

Lemma crash_safe_say line : keeps crash_safe (say line).
Proof.
  intros w H. destruct (say_frame line w) as [H1 [H2 _]].
  unfold crash_safe in *. cbv zeta in *. rewrite H1, H2. exact H.
Qed.

Lemma crash_safe_close_session : keeps crash_safe close_session.
Proof.
  intros w H. destruct (close_session_frame w) as [He [Hs [_ Hf]]].
  apply (crash_safe_step w); auto.
  - exists []. now rewrite app_nil_r.
  - unfold consistent. cbv zeta in *. rewrite Hs, He. apply H.
Qed.



(** *** The event log only grows *)

Lemma continues_view w0 w w' :
  session_data w' = session_data w -> session_file w' = session_file w ->
  spoken w' = spoken w -> continues w0 w -> continues w0 w'.
Proof. unfold continues. intros -> _ _ H. exact H. Qed.

Lemma continues_log_event w0 event_type data :
  keeps (continues w0) (log_event event_type data).
Proof.
  intros w [later H].
  destruct (log_event_replay event_type data w) as [He _].
  eexists. cbv zeta in He. rewrite He, H, <- app_assoc. reflexivity.
Qed.

Lemma continues_say w0 line : keeps (continues w0) (say line).
Proof.
  intros w H. destruct (say_frame line w) as [H1 _].
  unfold continues in *. cbv zeta in H1. rewrite H1. exact H.
Qed.

Lemma continues_close_session w0 : keeps (continues w0) close_session.
Proof.
  intros w H. destruct (close_session_frame w) as [He _].
  unfold continues in *. cbv zeta in He. rewrite He. exact H.
Qed.

Lemma replay_app_le evs later :
  let s := replay evs in
  let s' := replay (evs ++ later) in
  tts_events s <= tts_events s' /\ stt_events s <= stt_events s' /\
  commands_processed s <= commands_processed s' /\ errors s <= errors s' /\
  total_chars_spoken s <= total_chars_spoken s' /\
  total_chars_heard s <= total_chars_heard s'.
Proof.
  unfold replay.
  cbn [tts_events stt_events commands_processed errors total_chars_spoken
       total_chars_heard].
  rewrite !filter_app, !map_app, !length_app, !list_sum_app.
  repeat split; lia.
Qed.



(** *** Nothing is said that was not recorded *)

Lemma said_step w w' :
  said_is_logged w ->
  (exists later,
      events (session_data w') = (events (session_data w) ++ later)%list) ->
  (forall s, In s (spoken w') ->
     In s (spoken w) \/
     exists e, In e (events (session_data w')) /\ tts_text e = Some s) ->
  said_is_logged w'.
Proof.
  intros H [later Hl] Hs s Hin. destruct (Hs s Hin) as [Hold | Hnew]; auto.
  destruct (H s Hold) as [e [He Ht]]. exists e. split; [|exact Ht].
  rewrite Hl. apply in_or_app. now left.
Qed.

Lemma said_view w w' :
  session_data w' = session_data w -> session_file w' = session_file w ->
  spoken w' = spoken w -> said_is_logged w -> said_is_logged w'.
Proof. unfold said_is_logged. intros -> _ -> H. exact H. Qed.

Lemma said_log_event event_type data :
  keeps said_is_logged (log_event event_type data).
Proof.
  intros w H.
  destruct (log_event_replay event_type data w) as [He _].
  destruct (log_event_frame event_type data w) as [Hs _].
  apply (said_step w); auto.
  - eexists. exact He.
  - intros s Hin. left. cbv zeta in Hs. now rewrite <- Hs.
Qed.

Lemma said_close_session : keeps said_is_logged close_session.
Proof.
  intros w H. destruct (close_session_frame w) as [He [_ [Hs _]]].
  unfold said_is_logged in *. cbv zeta in *. rewrite Hs, He. exact H.
Qed.

Lemma said_speak line : keeps said_is_logged (speak line).
Proof.
  intros w H. apply (said_step w); auto.
  - apply (keeps_speak_of_say (continues w)).
    + apply continues_view.
    + apply continues_log_event.
    + apply continues_say.
    + exists []. now rewrite app_nil_r.
  - clear H. open_world w.
    repeat (norm;
            match goal with
            | |- context [match disk ?p with _ => _ end] =>
                destruct (disk p) as [|[[] ?]|[[] ?]]
            | |- context [match tts ?p with _ => _ end] =>
                destruct (tts p)
            end);
      norm; intros said Hin; auto;
      (apply in_app_or in Hin; destruct Hin as [Hin | [<- | []]]; auto);
      right; eexists;
      (split; [apply in_or_app; right; left; reflexivity | reflexivity]).
Qed.



(** *** Failures while listening *)







(** *** Failures while speaking *)





(** *** What ends the loop *)

Lemma empty_window lower wake_words w :
  healthy w -> mic w (mic_pos w) = Heard "" ->
  exists w',
    gate_step lower wake_words CommandWindow w = (Ok (Next, Idle), w').
Proof.
  intros Hd Hm. open_world w. norm. rewrite Hm. go Hd.
  destruct (tts tp) as [m|]; go Hd; eexists; reflexivity.
Qed.

Lemma failed_window lower wake_words w e :
  healthy w -> mic w (mic_pos w) = Fails e -> is_Exception e = true ->
  exists w',
    gate_step lower wake_words CommandWindow w = (Ok (Next, Idle), w').
Proof.
  intros Hd Hm He. open_world w. destruct e as [k msg]. norm. rewrite Hm.
  destruct k; try discriminate; go Hd;
    (destruct (tts tp) as [m|]; go Hd; eexists; reflexivity).
Qed.

Lemma failed_idle lower wake_words w e :
  healthy w -> mic w (mic_pos w) = Fails e -> is_Exception e = true ->
  exists w',
    gate_step lower wake_words Idle w = (Ok (Next, Idle), w').
Proof.
  intros Hd Hm He. open_world w. destruct e as [k msg]. norm. rewrite Hm.
  destruct k; try discriminate; go Hd; eexists; reflexivity.
Qed.

Lemma respond_stop_words command command_lower :
  respond command command_lower = "STOP_LISTENING" ->
  contains "stop" command_lower || contains "exit" command_lower
    || contains "shutdown" command_lower = true.
Proof.
  unfold respond.
  repeat match goal with
         | |- (if ?c then _ else _) = _ -> _ =>
             destruct c; [try (intros H; discriminate H)|]
         end.
  - reflexivity.
  - cbn [append]. intros H. discriminate H.
Qed.



(** *** Edges of the logger and of the start of the listener *)




Lemma append_assoc (s1 s2 s3 : string) :
  (s1 ++ s2) ++ s3 = s1 ++ s2 ++ s3.
Proof.
  induction s1 as [|c s1 IH]; simpl; [reflexivity | now rewrite IH].
Qed.

Lemma contains_trans (a b t : string) :
  contains a b = true -> contains b t = true -> contains a t = true.
Proof.
  rewrite !contains_substring.
  intros [pre1 [post1 ->]] [pre2 [post2 ->]].
  exists (pre2 ++ pre1), (post1 ++ post2).
  now rewrite !append_assoc.
Qed.


End SessionExtras.
